(** * bomsort: a shallow embedding of [bomsort.py] and its verified properties

    The development follows the source top-down: the row layouts given by
    the index constants, [create_component_list], [optimize_part_list], and
    the three report generators of [main].  Python lists that are indexed
    and updated in place are stdpp lists with lookup [!!] and insert
    [<[i:=x]>]; an index outside the list raises [IndexError], which the
    model makes explicit. *)

From Stdlib Require Import ZArith Ascii String.
From stdpp Require Import base tactics option list sorting strings pretty.

Set Warnings "-clear-no-such-hyp".

Local Open Scope string_scope.
Local Open Scope list_scope.
Local Open Scope nat_scope.

(** ** Python-level data *)

(** Exceptions the program can meet; [OSError] carries its message. *)
Inductive exn : Type :=
  | IndexError
  | OSError (msg : string).

(** [str(e)], as [print(e)] shows it. *)
Definition exn_str (e : exn) : string :=
  match e with
  | IndexError => "list index out of range"
  | OSError msg => msg
  end.

(** Result of running a piece of Python: a value or a raised exception. *)
Inductive outcome (A : Type) : Type :=
  | Returned (a : A)
  | Raised (e : exn).
Arguments Returned {A} a.
Arguments Raised {A} e.

(** A row of the main BOM: [nl] in [main], indexed by [BOM_DES], [BOM_X],
    [BOM_Y], [BOM_A], [BOM_CMB]. *)
Record bom_row : Type := mkBom {
  BOM_DES : string;
  BOM_X : string;
  BOM_Y : string;
  BOM_A : string;
  BOM_CMB : string
}.

(** A row of the parts list: the five BOM fields plus [PART_QTY]. *)
Record part : Type := mkPart {
  PART_DES : string;
  PART_X : string;
  PART_Y : string;
  PART_A : string;
  PART_CMB : string;
  PART_QTY : Z
}.

(** A parts-list row after [cl[i].append(l1_ptrn[i])]: index [PART_FDR]
    holds the feeder number. *)
Record feeder_part : Type := mkFeeder {
  fp_part :> part;
  PART_FDR : nat
}.

(** [counted_part[PART_QTY] = q]. *)
Definition set_PART_QTY (p : part) (q : Z) : part :=
  mkPart (PART_DES p) (PART_X p) (PART_Y p) (PART_A p) (PART_CMB p) q.

(** ** [create_component_list] *)

(** [item = list(part); item.append(1)]. *)
Definition new_item (p : bom_row) : part :=
  mkPart (BOM_DES p) (BOM_X p) (BOM_Y p) (BOM_A p) (BOM_CMB p) 1.

(** The inner [for counted_part in counted_parts] loop: the first entry
    whose [PART_CMB] equals the part's [BOM_CMB] has its quantity increased
    and the loop breaks.  Returns [insert_flag] and the updated list. *)
Fixpoint count_part (p : bom_row) (counted_parts : list part) : bool * list part :=
  match counted_parts with
  | [] => (true, [])
  | counted_part :: rest =>
      if String.eqb (PART_CMB counted_part) (BOM_CMB p)
      then (false, set_PART_QTY counted_part (PART_QTY counted_part + 1)%Z :: rest)
      else let '(insert_flag, rest') := count_part p rest in
           (insert_flag, counted_part :: rest')
  end.

(** One iteration of the outer [for part in bomlist] loop. *)
Definition count_step (counted_parts : list part) (p : bom_row) : list part :=
  let '(insert_flag, counted_parts') := count_part p counted_parts in
  if insert_flag then counted_parts' ++ [new_item p] else counted_parts'.

Definition create_component_list (bomlist : list bom_row) : list part :=
  fold_left count_step bomlist [].

(** ** [optimize_part_list] *)

(** [tmp = bomlist[i+2]; bomlist[i+2] = bomlist[i+1]; bomlist[i+1] = tmp].
    A read outside the list raises before anything is written; the writes
    are then in range. *)
Definition exchange_up {A} (bomlist : list A) (i : nat) : outcome (list A) :=
  match bomlist !! (i + 2) with
  | None => Raised IndexError
  | Some tmp =>
      match bomlist !! (i + 1) with
      | None => Raised IndexError
      | Some nxt => Returned (<[i + 1 := tmp]> (<[i + 2 := nxt]> bomlist))
      end
  end.

(** [tmp = bomlist[i-1]; bomlist[i-1] = bomlist[i]; bomlist[i] = tmp].  The
    source takes this branch only with [1 <= i], so [i-1] never wraps. *)
Definition exchange_down {A} (bomlist : list A) (i : nat) : outcome (list A) :=
  match bomlist !! (i - 1) with
  | None => Raised IndexError
  | Some tmp =>
      match bomlist !! i with
      | None => Raised IndexError
      | Some cur => Returned (<[i := tmp]> (<[i - 1 := cur]> bomlist))
      end
  end.

(** The exchange chosen at a collision found at index [i]. *)
Definition exchange_at {A} (bomlist : list A) (i : nat) : outcome (list A) :=
  if i <=? 17 then
    if i =? 0 then exchange_up bomlist i else exchange_down bomlist i
  else
    if i =? 36 then exchange_down bomlist i else exchange_up bomlist i.

Section Optimizer.
(** The optimiser only reads index 4 of a row. *)
Context {A : Type} (cmb : A → string).

(** The body of [for i in range(cnt-1)], over the remaining indices.  The
    state is the list (mutated in place by the source) and [updated]; when
    an exception is raised the list is left as it was at that moment. *)
Fixpoint optimize_from (indices : list nat) (bomlist : list A) (updated : bool)
  : list A * outcome bool :=
  match indices with
  | [] => (bomlist, Returned updated)
  | i :: indices' =>
      match bomlist !! i, bomlist !! (i + 1) with
      | Some a, Some b =>
          if String.eqb (cmb a) (cmb b) then
            match exchange_at bomlist i with
            | Returned bomlist' => optimize_from indices' bomlist' true
            | Raised e => (bomlist, Raised e)
            end
          else optimize_from indices' bomlist updated
      | _, _ => (bomlist, Raised IndexError)
      end
  end.

Definition optimize_part_list (bomlist : list A) (cnt : nat) : list A * outcome bool :=
  optimize_from (seq 0 (cnt - 1)) bomlist false.

(** [while optimize_part_list(fls, cnt): print("optimizing......")].
    [None] means the budget of the model ran out; the source has no
    budget.  The result carries the final list, how the loop ended and
    the number of lines printed. *)
Fixpoint optimize_while (fuel : nat) (fls : list A) (cnt : nat) (printed : nat)
  : option (list A * outcome unit * nat) :=
  match fuel with
  | O => None
  | S fuel' =>
      match optimize_part_list fls cnt with
      | (fls', Returned true) => optimize_while fuel' fls' cnt (S printed)
      | (fls', Returned false) => Some (fls', Returned tt, printed)
      | (fls', Raised e) => Some (fls', Raised e, printed)
      end
  end.
End Optimizer.

(** ** Strings and sorting as Python provides them *)

(** [str.isspace] on the characters below code point 256: the separators
    of [str.split()] without argument. *)
Definition isspace (c : ascii) : bool :=
  let n := nat_of_ascii c in
  ((9 <=? n) && (n <=? 13)) || ((28 <=? n) && (n <=? 32)) || (n =? 133) || (n =? 160).

(** [line.replace(",", ".")]. *)
Fixpoint replace_comma (s : string) : string :=
  match s with
  | EmptyString => EmptyString
  | String c s' =>
      String (if Ascii.eqb c "," then "."%char else c) (replace_comma s')
  end.

(** [s.strip().split()]: the maximal runs of non-space characters, in
    order; [cur] is the run being read. *)
Fixpoint split_from (cur : string) (s : string) : list string :=
  match s with
  | EmptyString => if String.eqb cur "" then [] else [cur]
  | String c s' =>
      if isspace c
      then (if String.eqb cur "" then split_from "" s' else cur :: split_from "" s')
      else split_from (cur +:+ String c "") s'
  end.

Definition split_whitespace (s : string) : list string := split_from "" s.

(** [s.split("|")]: the pieces between separators, empty pieces kept. *)
Fixpoint split_on_from (sep : ascii) (cur : string) (s : string) : list string :=
  match s with
  | EmptyString => [cur]
  | String c s' =>
      if Ascii.eqb c sep then cur :: split_on_from sep "" s'
      else split_on_from sep (cur +:+ String c "") s'
  end.

Definition split_bar (s : string) : list string := split_on_from "|" "" s.

(** [sorted] is stable, so its result is the one a stable insertion sort
    gives.  [lt x y] says that the key of [x] is below the key of [y]; an
    element is put in front of the first one that is not below it. *)
Fixpoint insert_sorted {A} (lt : A → A → bool) (x : A) (l : list A) : list A :=
  match l with
  | [] => [x]
  | y :: l' => if lt y x then y :: insert_sorted lt x l' else x :: y :: l'
  end.

Definition py_sorted {A} (lt : A → A → bool) (l : list A) : list A :=
  foldr (insert_sorted lt) [] l.

(** [sorted(vs, key=itemgetter(BOM_DES), reverse=False)]. *)
Definition sorted_by_des (vs : list part) : list part :=
  py_sorted (λ a b, String.ltb (PART_DES a) (PART_DES b)) vs.

(** [sorted(col, key=itemgetter(PART_QTY), reverse=True)]: descending, and
    still stable. *)
Definition sorted_by_qty_rev (col : list part) : list part :=
  py_sorted (λ a b, (PART_QTY b <? PART_QTY a)%Z) col.

(** [sorted(fl, key=itemgetter(PART_FDR))]. *)
Definition sorted_by_fdr (fl : list feeder_part) : list feeder_part :=
  py_sorted (λ a b, PART_FDR a <? PART_FDR b) fl.

(** ** The feeder list of [main] *)

Definition feeder_widths : list (list nat) := [[8; 0; 0]; [12; 1; 0]; [16; 1; 0]].

Definition l1_ptrn : list nat :=
  [19; 18; 20; 17; 21; 16; 22; 15; 23; 14; 24; 13; 25; 12; 26; 11; 27; 10; 28; 9;
   29; 8; 30; 7; 31; 6; 32; 5; 33; 4; 34; 3; 35; 2; 36; 1; 37; 0].

(** [if len(col) > len(l1_ptrn): cnt = len(l1_ptrn) else: cnt = len(col)]. *)
Definition feeder_cnt (col : list part) : nat :=
  if length l1_ptrn <? length col then length l1_ptrn else length col.

(** [cmp[PART_QTY] > cnt / 2]: an integer against the float [cnt / 2],
    which Python compares exactly. *)
Definition over_half (q : Z) (cnt : nat) : bool := (Z.of_nat cnt <? 2 * q)%Z.

(** [int(cmp[PART_QTY] / 2)]: true division, then truncation towards zero.
    The float quotient is exact for quantities below [2^53]; a quantity is
    a count of lines of the input file. *)
Definition int_half (q : Z) : Z := (q ÷ 2)%Z.

(** The body of [for cmp in col]: the entry as it is left in [col], and
    what is appended to [adders]. *)
Definition split_step (cnt : nat) (cmp : part) : part * list part :=
  if over_half (PART_QTY cmp) cnt then
    let qty := PART_QTY cmp in
    let cmp' := set_PART_QTY cmp (int_half qty) in
    let item := set_PART_QTY cmp' (qty - PART_QTY cmp')%Z in
    (cmp', [item])
  else (cmp, []).

(** The whole loop: [col] after the in-place changes, and [adders]. *)
Fixpoint split_parts (cnt : nat) (col : list part) : list part * list part :=
  match col with
  | [] => ([], [])
  | cmp :: rest =>
      let '(cmp', item) := split_step cnt cmp in
      let '(rest', adders) := split_parts cnt rest in
      (cmp' :: rest', item ++ adders)
  end.

(** [for each in adders: col.append(each)]. *)
Definition add_adders (cnt : nat) (col : list part) : list part :=
  let '(col', adders) := split_parts cnt col in col' ++ adders.

(** [for i in range(cnt): cl[i].append(l1_ptrn[i]); fl.append(cl[i])]. *)
Fixpoint distribute_from (indices : list nat) (cl : list part) (fl : list feeder_part)
  : outcome (list feeder_part) :=
  match indices with
  | [] => Returned fl
  | i :: indices' =>
      match cl !! i, l1_ptrn !! i with
      | Some p, Some fdr => distribute_from indices' cl (fl ++ [mkFeeder p fdr])
      | _, _ => Raised IndexError
      end
  end.

Definition distribute (cl : list part) (cnt : nat) : outcome (list feeder_part) :=
  distribute_from (seq 0 cnt) cl [].

(** Everything between [col = create_component_list(v)] and the optimiser:
    [cnt] and [fls]. *)
Definition feeder_table (v : list bom_row) : nat * outcome (list feeder_part) :=
  let col := create_component_list v in
  let cnt := feeder_cnt col in
  let col := add_adders cnt col in
  let cl := sorted_by_qty_rev col in
  (cnt, match distribute cl cnt with
        | Returned fl => Returned (sorted_by_fdr fl)
        | Raised e => Raised e
        end).

(** The typeKey of a feeder-list row, as [optimize_part_list] reads it:
    [bomlist[i][4]]. *)
Definition entry_cmb (entry : feeder_part) : string := PART_CMB entry.

(** ** Reading the BOM file *)

(** The body of the [for line in f] loop for a line that is kept: the six
    tokens are read by index, a missing one raises [IndexError]. *)
Definition parse_line (line : string) : outcome bom_row :=
  let noComma := replace_comma line in
  let ml := split_whitespace noComma in
  match ml !! 0, ml !! 1, ml !! 2, ml !! 3, ml !! 4, ml !! 5 with
  | Some des, Some x, Some y, Some a, Some val, Some pac =>
      Returned (mkBom des x y a (val +:+ "|" +:+ pac))
  | _, _, _, _, _, _ => Raised IndexError
  end.

(** [line.startswith("TP") or line.startswith("FID")]. *)
Definition skipped (line : string) : bool :=
  String.prefix "TP" line || String.prefix "FID" line.

(** The [for line in f] loop; [v] is the main BOM built so far, which an
    exception leaves as it is. *)
Fixpoint read_lines (lines : list string) (v : list bom_row) : list bom_row * outcome unit :=
  match lines with
  | [] => (v, Returned tt)
  | line :: rest =>
      if negb (skipped line) then
        match parse_line line with
        | Returned nl => read_lines rest (v ++ [nl])
        | Raised e => (v, Raised e)
        end
      else read_lines rest v
  end.

(** ** Output *)

(** A CSV field is written from a string or from an integer. *)
Inductive cell : Type :=
  | CStr (s : string)
  | CInt (z : Z).

Definition csv : Type := list (list cell).

(** What a run leaves behind: the lines printed and the files written, in
    the order of writing. *)
Record world : Type := mkWorld {
  stdout : list string;
  files : list (string * csv)
}.

Definition print (line : string) (w : world) : world :=
  mkWorld (stdout w ++ [line]) (files w).

Definition write_file (name : string) (rows : csv) (w : world) : world :=
  mkWorld (stdout w) (files w ++ [(name, rows)]).

(** How the process ends: [main] returns, [exit(code)] is called, or an
    exception reaches the top level. *)
Inductive ending : Type :=
  | Finished
  | Exited (code : Z)
  | Uncaught (e : exn).

Definition exit_status (e : ending) : Z :=
  match e with
  | Finished => 0
  | Exited code => code
  | Uncaught _ => 1
  end.

(** The [try] block with its [except Exception] handler: the file system
    is [fs], a file being its lines.  The handler prints and the run goes
    on with whatever [v] holds. *)
Definition read_bom (fs : string → outcome (list string)) (filename : string) (w : world)
  : list bom_row * world :=
  let handler (e : exn) (w : world) : world :=
    print (exn_str e) (print ("Could not open file " +:+ filename) w) in
  match fs filename with
  | Raised e => ([], handler e w)
  | Returned lines =>
      match read_lines lines [] with
      | (v, Returned _) => (v, w)
      | (v, Raised e) => (v, handler e w)
      end
  end.

(** [info = s.split("|")] followed by [info[IX_VAL]] and [info[IX_PAC]]. *)
Definition split_cmb (s : string) : outcome (string * string) :=
  let info := split_bar s in
  match info !! 0, info !! 1 with
  | Some val, Some pac => Returned (val, pac)
  | _, _ => Raised IndexError
  end.

(** The rows written by a [for] loop over [l]; [row] numbers the entries
    from [start].  The rows written before an exception stay written. *)
Fixpoint write_rows {A} (f : nat → A → outcome (list cell)) (start : nat) (l : list A)
  : csv * outcome unit :=
  match l with
  | [] => ([], Returned tt)
  | a :: rest =>
      match f start a with
      | Returned r => let '(rows, res) := write_rows f (S start) rest in (r :: rows, res)
      | Raised e => ([], Raised e)
      end
  end.

Definition header (names : list string) : list cell := CStr <$> names.

Definition bom_line (_ : nat) (row : bom_row) : outcome (list cell) :=
  match split_cmb (BOM_CMB row) with
  | Returned (val, pac) =>
      Returned [CStr (BOM_DES row); CStr (BOM_X row); CStr (BOM_Y row);
                CStr (BOM_A row); CStr val; CStr pac]
  | Raised e => Raised e
  end.

Definition parts_line (row : nat) (i : part) : outcome (list cell) :=
  match split_cmb (PART_CMB i) with
  | Returned (val, pac) =>
      Returned [CInt (Z.of_nat row); CStr val; CStr pac; CInt (PART_QTY i)]
  | Raised e => Raised e
  end.

Definition feeder_line (_ : nat) (entry : feeder_part) : outcome (list cell) :=
  match split_cmb (PART_CMB entry) with
  | Returned (val, pac) =>
      Returned [CInt (Z.of_nat (PART_FDR entry) + 1); CStr val; CStr pac;
                CInt (PART_QTY entry)]
  | Raised e => Raised e
  end.

(** ** [main] *)

(** What [parser.parse_args()] returns. *)
Record namespace : Type := mkArgs {
  arg_bom : option string;
  arg_sorted : bool;
  arg_parts : option string;
  arg_feederlist : option string
}.

(** [if parsed.bom:] and the like: [None] and the empty string are false. *)
Definition requested (o : option string) : option string :=
  match o with
  | Some name => if String.eqb name "" then None else Some name
  | None => None
  end.

(** A section of [main] that writes one file: the rows go to the file as
    far as they were computed, and an exception ends the run. *)
Definition write_section (name : string) (rows : csv * outcome unit) (w : world)
  : world * outcome unit :=
  (write_file name rows.1 w, rows.2).

Section Main.
(** [natsorted(v, key=lambda bom: bom[BOM_DES])] of the natsort package. *)
Variable natsorted : list bom_row → list bom_row.

(** [if parsed.bom:]. *)
Definition bom_section (parsed : namespace) (v : list bom_row) (w : world)
  : world * outcome unit :=
  match requested (arg_bom parsed) with
  | None => (w, Returned tt)
  | Some name =>
      let w := print "Generating parts list for the KAYO pick and place machine !" w in
      let vs := if arg_sorted parsed then natsorted v else v in
      let '(rows, res) := write_rows bom_line 0 vs in
      write_section name
        (header ["Part"; "X"; "Y"; "A"; "Description"; "Package"] :: rows, res) w
  end.

(** [if parsed.parts:]. *)
Definition parts_section (parsed : namespace) (v : list bom_row) (w : world)
  : world * outcome unit :=
  match requested (arg_parts parsed) with
  | None => (w, Returned tt)
  | Some name =>
      let w := print "Generating a list of used parts (Inventory picking list) !" w in
      let vs := create_component_list v in
      let cl := sorted_by_des vs in
      let '(rows, res) := write_rows parts_line 1 cl in
      write_section name
        (header ["Part"; "Description"; "Package"; "Count"] :: rows, res) w
  end.

(** [if parsed.feederlist:].  [None] when the optimiser loop outlives
    [fuel]. *)
Definition feeder_section (fuel : nat) (parsed : namespace) (v : list bom_row) (w : world)
  : option (world * outcome unit) :=
  match requested (arg_feederlist parsed) with
  | None => Some (w, Returned tt)
  | Some name =>
      let w := print "Generating feeder list !" w in
      match feeder_table v with
      | (cnt, Raised e) => Some (w, Raised e)
      | (cnt, Returned fls) =>
          match optimize_while entry_cmb fuel fls cnt 0 with
          | None => None
          | Some (fls, res, printed) =>
              let w := mkWorld (stdout w ++ replicate printed "optimizing......") (files w) in
              match res with
              | Raised e => Some (w, Raised e)
              | Returned _ =>
                  let '(rows, res) := write_rows feeder_line 0 fls in
                  Some (write_section name
                          (header ["Feeder"; "Description"; "Package"; "Count"] :: rows, res) w)
              end
          end
      end
  end.

(** The three [if parsed. ...:] sections in turn, from the main BOM [v];
    an exception that leaves a section ends the run. *)
Definition generate (fuel : nat) (parsed : namespace) (v : list bom_row) (w : world)
  : option (world * ending) :=
  match bom_section parsed v w with
  | (w, Raised e) => Some (w, Uncaught e)
  | (w, Returned _) =>
      match parts_section parsed v w with
      | (w, Raised e) => Some (w, Uncaught e)
      | (w, Returned _) =>
          match feeder_section fuel parsed v w with
          | None => None
          | Some (w, Raised e) => Some (w, Uncaught e)
          | Some (w, Returned _) => Some (w, Finished)
          end
      end
  end.

(** The two lines [main] prints first. *)
Definition banner : world :=
  print "(C) 2019-2022 Invector Embedded Systems AB, Written by Pontus Oldberg"
    (print "BOM Manager utility V0.2" (mkWorld [] [])).

Definition main (fuel : nat) (argv : list string) (parsed : namespace)
    (fs : string → outcome (list string)) : option (world * ending) :=
  let w := banner in
  if length argv <? 2 then
    Some (print "You have to specify a file name !" w, Exited 1)
  else
    let filename := default "" (argv !! 1) in
    let '(v, w) := read_bom fs filename w in
    generate fuel parsed v w.
End Main.

(** ** Sample inputs *)

(** [n] placements of one component type, as lines of a BOM file. *)
Definition bom_lines (prefix val pac : string) (n : nat) : list string :=
  (λ i, prefix +:+ pretty (S i) +:+ " 1.0 2.0 90 " +:+ val +:+ " " +:+ pac +:+ "
") <$> seq 0 n.

(** A file system with one file. *)
Definition one_file (name : string) (lines : list string) (filename : string)
  : outcome (list string) :=
  if String.eqb filename name then Returned lines
  else Raised (OSError ("[Errno 2] No such file or directory: '" +:+ filename +:+ "'")).

(** [bomsort.py bom.txt -p parts.csv -f feeders.csv]. *)
Definition sample_argv : list string :=
  ["bomsort.py"; "bom.txt"; "-p"; "parts.csv"; "-f"; "feeders.csv"].
Definition sample_parsed : namespace :=
  mkArgs None false (Some "parts.csv") (Some "feeders.csv").

(** Four part types with 10, 10, 5 and 2 placements. *)
Definition four_types : list string :=
  bom_lines "R" "10k" "0402" 10 ++ bom_lines "C" "1uF" "0603" 10
  ++ bom_lines "D" "red" "0805" 5 ++ bom_lines "U" "lm358" "so8" 2.

(** Two part types with 3 and 1 placements. *)
Definition two_types : list string :=
  bom_lines "R" "10k" "0402" 3 ++ bom_lines "C" "1uF" "0603" 1.

(** Two good lines, a line with three tokens, and a good line. *)
Definition broken_file : list string :=
  bom_lines "R" "10k" "0402" 2 ++ ["C1 3.0 4.0
"] ++ bom_lines "U" "lm358" "so8" 1.

(** A main BOM with [types] part types of [each] placements. *)
Definition sample_bom (types each : nat) : list bom_row :=
  t ← seq 0 types;
  (λ i, mkBom ("R" +:+ pretty (t * each + i)) "1.0" "2.0" "90"
              ("v" +:+ pretty t +:+ "|0402")) <$> seq 0 each.

(** The parts list of [sample_bom 39 20], and its last part. *)
Definition crowded : list part := create_component_list (sample_bom 39 20).
Definition crowded_last : part := mkPart "R760" "1.0" "2.0" "90" "v38|0402" 20.

(** The parts list of a BOM with a single placement, and its part. *)
Definition single : list part := create_component_list (sample_bom 1 1).
Definition single_part : part := mkPart "R0" "1.0" "2.0" "90" "v0|0402" 1.

(** A main BOM with three placements of one type and one of another, its
    parts list and the two parts. *)
Definition mixed_bom : list bom_row :=
  sample_bom 1 3 ++ [mkBom "C1" "3.0" "4.0" "0" "1uF|0603"].
Definition mixed : list part := create_component_list mixed_bom.
Definition mixed_first : part := mkPart "R0" "1.0" "2.0" "90" "v0|0402" 3.
Definition mixed_second : part := mkPart "C1" "3.0" "4.0" "0" "1uF|0603" 1.

(** A line with decimal commas and a seventh token. *)
Definition comma_line : string := "R1 1,5 2.0 90 4,7k 0402 top
".

(** A file that starts with a test point. *)
Definition with_test_point : list string := "TP1 0 0 0 tp pad
" :: four_types.

(** A row of the feeder list with typeKey [cmb]. *)
Definition sample_entry (cmb : string) (qty : Z) (fdr : nat) : feeder_part :=
  mkFeeder (mkPart "R1" "1.0" "2.0" "90" cmb qty) fdr.

(** The feeder list [main] builds from [two_types]. *)
Definition two_alike : list feeder_part :=
  [sample_entry "10k|0402" 1 18; sample_entry "10k|0402" 2 19].

(** Three feeders with the same part. *)
Definition three_alike : list feeder_part :=
  [sample_entry "10k|0402" 4 17; sample_entry "10k|0402" 2 18;
   sample_entry "10k|0402" 1 19].

(** The feeder list [main] builds from [four_types], and the list the
    optimiser leaves. *)
Definition collided : list feeder_part :=
  [sample_entry "1uF|0603" 5 17; sample_entry "1uF|0603" 5 18;
   sample_entry "10k|0402" 5 19; sample_entry "10k|0402" 5 20].
Definition settled : list feeder_part :=
  [sample_entry "1uF|0603" 5 17; sample_entry "10k|0402" 5 19;
   sample_entry "1uF|0603" 5 18; sample_entry "10k|0402" 5 20].

(** ** Specification-level notions *)

(** The two lines the [except] handler prints for exception [e]. *)
Definition report (e : exn) (filename : string) (w : world) : world :=
  print (exn_str e) (print ("Could not open file " +:+ filename) w).

(** The ways reading the BOM fails, with the main BOM [v] as the failure
    leaves it: the file cannot be opened, or a line that is not skipped
    has fewer than six tokens, the lines before it having been read. *)
Inductive read_failure (fs : string → outcome (list string)) (filename : string)
  : list bom_row → exn → Prop :=
  | cannot_open (e : exn) :
      fs filename = Raised e → read_failure fs filename [] e
  | malformed_record (good : list string) (bad : string) (rest : list string)
      (v : list bom_row) :
      fs filename = Returned (good ++ bad :: rest) →
      read_lines good [] = (v, Returned tt) →
      skipped bad = false →
      length (split_whitespace (replace_comma bad)) < 6 →
      read_failure fs filename v IndexError.

(** Two runs agree on what matters after the run: the files written and
    the way the process ended. *)
Definition same_result (r1 r2 : option (world * ending)) : Prop :=
  match r1, r2 with
  | Some (w1, e1), Some (w2, e2) => files w1 = files w2 ∧ e1 = e2
  | None, None => True
  | _, _ => False
  end.

(** The distinct keys of a sequence, each at its first occurrence. *)
Fixpoint first_occurrences (keys : list string) : list string :=
  match keys with
  | [] => []
  | k :: rest => k :: filter (λ k', k' ≠ k) (first_occurrences rest)
  end.

(** The two quantities of a split part, in the words of the
    specification: [floor(q/2)] and [q - floor(q/2)]. *)
Definition floor_half (q : Z) : Z := (q `div` 2)%Z.
Definition remainder (q : Z) : Z := (q - q `div` 2)%Z.

(** Whether the character [c] occurs in [s]. *)
Fixpoint contains (c : ascii) (s : string) : bool :=
  match s with
  | EmptyString => false
  | String c' s' => Ascii.eqb c' c || contains c s'
  end.

(** The integers of column [k] of the rows of a file. *)
Definition int_at (k : nat) (row : list cell) : option Z :=
  match row !! k with
  | Some (CInt z) => Some z
  | _ => None
  end.
Definition column (k : nat) (rows : csv) : list Z := omap (int_at k) rows.

(** Whether every character of [s] passes the test [ok]. *)
Fixpoint all_chars (ok : ascii → bool) (s : string) : bool :=
  match s with
  | EmptyString => true
  | String c s' => ok c && all_chars ok s'
  end.

(** A character that is neither a comma nor white space. *)
Definition plain (c : ascii) : bool := negb (Ascii.eqb c ",") && negb (isspace c).

(** A field that is not empty and holds plain characters only. *)
Definition plain_field (s : string) : bool :=
  negb (String.eqb s "") && all_chars plain s.

(** A row of the main BOM all of whose fields are such. *)
Definition plain_row (r : bom_row) : bool :=
  plain_field (BOM_DES r) && plain_field (BOM_X r) && plain_field (BOM_Y r)
  && plain_field (BOM_A r) && plain_field (BOM_CMB r).


(** What an entry [p] of the parts list says about the main BOM it was
    counted from: its quantity is the number of records with its typeKey,
    and its other fields are those of the first such record. *)
Definition counts_records (bomlist : list bom_row) (p : part) : Prop :=
  PART_QTY p = Z.of_nat (length (filter (λ r, BOM_CMB r = PART_CMB p) bomlist))
  ∧ ∃ pre r post, bomlist = pre ++ r :: post
                  ∧ (PART_CMB p ∉ BOM_CMB <$> pre)
                  ∧ new_item r = set_PART_QTY p 1.

(** Sum of the quantity fields. *)
Definition total_qty (parts : list part) : Z :=
  foldr (λ p acc, (PART_QTY p + acc)%Z) 0%Z parts.

(** The values of [cnt] for which the exchanges of [optimize_part_list]
    stay inside a list of [cnt] rows: nothing to compare, a list that
    ends in the lower half of the table, or the full table. *)
Definition exchanges_fit (cnt : nat) : bool :=
  (cnt <=? 1) || ((3 <=? cnt) && (cnt <=? 19)) || (cnt =? 38).

Section Collisions.
Context {A : Type} (cmb : A → string).

(** Number of adjacent pairs with the same typeKey. *)
Fixpoint collisions (l : list A) : nat :=
  match l with
  | a :: rest =>
      match rest with
      | b :: _ => (if String.eqb (cmb a) (cmb b) then 1 else 0) + collisions rest
      | [] => 0
      end
  | [] => 0
  end.

(** Number of entries with typeKey [k]. *)
Definition count_key (k : string) (l : list A) : nat :=
  length (filter (λ a, cmb a = k) l).

(** No typeKey has more than two entries: what one split per part
    type leaves. *)
Definition at_most_twice (l : list A) : Prop := ∀ k, count_key k l ≤ 2.

(** The same as a test: only the typeKeys that occur need a look. *)
Definition at_most_twiceb (l : list A) : bool :=
  forallb (λ a, count_key (cmb a) l <=? 2) l.

(** The list after [n] calls of [optimize_part_list], whatever they
    returned. *)
Definition optimize_passes (n : nat) (l : list A) (cnt : nat) : list A :=
  Nat.iter n (λ l, (optimize_part_list cmb l cnt).1) l.
End Collisions.

(** * Properties of [create_component_list] *)

Lemma elem_of_first_occurrences (k : string) (keys : list string) :
  k ∈ first_occurrences keys ↔ k ∈ keys.
Proof.
  induction keys as [|k0 keys IH]; simpl; [done|].
  rewrite !elem_of_cons, list_elem_of_filter, IH.
  destruct (decide (k = k0)); naive_solver.
Qed.

Lemma NoDup_first_occurrences (keys : list string) : NoDup (first_occurrences keys).
Proof.
  induction keys as [|k0 keys IH]; simpl; [constructor|].
  constructor.
  - rewrite list_elem_of_filter. naive_solver.
  - by apply NoDup_filter.
Qed.

Lemma total_qty_app (l1 l2 : list part) :
  total_qty (l1 ++ l2) = (total_qty l1 + total_qty l2)%Z.
Proof. induction l1 as [|p l1 IH]; simpl; [done|]. rewrite IH. lia. Qed.

(** What the inner loop does to the keys, the flag, the sum and the lower
    bound on quantities. *)
Lemma count_part_spec (p : bom_row) (cp : list part) :
  PART_CMB <$> (count_part p cp).2 = PART_CMB <$> cp
  ∧ ((count_part p cp).1 = true ↔ BOM_CMB p ∉ PART_CMB <$> cp)
  ∧ total_qty (count_part p cp).2
    = (total_qty cp + (if (count_part p cp).1 then 0 else 1))%Z
  ∧ (Forall (λ c, (1 ≤ PART_QTY c)%Z) cp
     → Forall (λ c, (1 ≤ PART_QTY c)%Z) (count_part p cp).2).
Proof.
  induction cp as [|c cp (IHk & IHf & IHs & IHq)]; csimpl.
  - repeat split; try done. intros _. apply not_elem_of_nil.
  - destruct (String.eqb_spec (PART_CMB c) (BOM_CMB p)) as [Heq|Hne].
    + csimpl. repeat split; try done.
      * intros H. exfalso. apply H. rewrite Heq. left.
      * lia.
      * intros H. inversion H; subst. constructor; simpl; [lia|done].
    + destruct (count_part p cp) as [flag rest'] eqn:E; csimpl in *.
      repeat split.
      * by rewrite IHk.
      * intros ->. rewrite not_elem_of_cons. split; [done|]. by apply IHf.
      * rewrite not_elem_of_cons. intros [_ H]. by apply IHf.
      * rewrite IHs. lia.
      * intros H. inversion H; subst. constructor; auto.
Qed.

Lemma count_step_keys (cp : list part) (p : bom_row) :
  PART_CMB <$> count_step cp p
  = (PART_CMB <$> cp)
    ++ (if decide (BOM_CMB p ∈ PART_CMB <$> cp) then [] else [BOM_CMB p]).
Proof.
  unfold count_step.
  destruct (count_part_spec p cp) as (Hk & Hf & _).
  destruct (count_part p cp) as [flag cp'] eqn:E; simpl in *.
  destruct flag.
  - rewrite decide_False by (by apply Hf).
    by rewrite fmap_app, Hk.
  - rewrite decide_True.
    + by rewrite Hk, app_nil_r.
    + destruct (decide (BOM_CMB p ∈ PART_CMB <$> cp)); [done|].
      by apply Hf in n.
Qed.

Lemma count_step_total (cp : list part) (p : bom_row) :
  total_qty (count_step cp p) = (total_qty cp + 1)%Z.
Proof.
  unfold count_step.
  destruct (count_part_spec p cp) as (_ & _ & Hs & _).
  destruct (count_part p cp) as [flag cp'] eqn:E; simpl in *.
  destruct flag; [|done].
  rewrite total_qty_app, Hs. simpl. lia.
Qed.

Lemma count_step_positive (cp : list part) (p : bom_row) :
  Forall (λ c, (1 ≤ PART_QTY c)%Z) cp
  → Forall (λ c, (1 ≤ PART_QTY c)%Z) (count_step cp p).
Proof.
  intros H. unfold count_step.
  destruct (count_part_spec p cp) as (_ & _ & _ & Hq).
  destruct (count_part p cp) as [flag cp'] eqn:E; simpl in *.
  destruct flag; [|auto].
  apply Forall_app. split; [auto|]. constructor; [simpl; lia|constructor].
Qed.

(** The outer loop started from any list of counted parts. *)
Lemma fold_count_step_keys (bomlist : list bom_row) (cp : list part) :
  PART_CMB <$> fold_left count_step bomlist cp
  = (PART_CMB <$> cp)
    ++ filter (λ k, k ∉ PART_CMB <$> cp) (first_occurrences (BOM_CMB <$> bomlist)).
Proof.
  revert cp. induction bomlist as [|p bomlist IH]; intros cp; simpl.
  - by rewrite app_nil_r.
  - rewrite IH, count_step_keys.
    destruct (decide (BOM_CMB p ∈ PART_CMB <$> cp)) as [Hin|Hnin].
    + rewrite app_nil_r, filter_cons_False by naive_solver.
      f_equal. rewrite list_filter_filter. apply list_filter_iff.
      intros k. split; [|naive_solver].
      intros Hk. split; [done|]. intros ->. done.
    + rewrite filter_cons_True by done.
      rewrite <- app_assoc. simpl. do 2 f_equal.
      rewrite list_filter_filter. apply list_filter_iff.
      intros k. rewrite not_elem_of_app, list_elem_of_singleton. naive_solver.
Qed.

Lemma fold_count_step_total (bomlist : list bom_row) (cp : list part) :
  total_qty (fold_left count_step bomlist cp)
  = (total_qty cp + Z.of_nat (length bomlist))%Z.
Proof.
  revert cp. induction bomlist as [|p bomlist IH]; intros cp; simpl; [lia|].
  rewrite IH, count_step_total. lia.
Qed.

Lemma fold_count_step_positive (bomlist : list bom_row) (cp : list part) :
  Forall (λ c, (1 ≤ PART_QTY c)%Z) cp
  → Forall (λ c, (1 ≤ PART_QTY c)%Z) (fold_left count_step bomlist cp).
Proof.
  revert cp. induction bomlist as [|p bomlist IH]; intros cp H; simpl; [done|].
  apply IH. by apply count_step_positive.
Qed.

Lemma create_component_list_keys (bomlist : list bom_row) :
  PART_CMB <$> create_component_list bomlist = first_occurrences (BOM_CMB <$> bomlist).
Proof.
  unfold create_component_list. rewrite fold_count_step_keys. simpl.
  induction (first_occurrences (BOM_CMB <$> bomlist)) as [|k l IH]; [done|].
  rewrite filter_cons_True by apply not_elem_of_nil. by rewrite IH.
Qed.

Lemma create_component_list_NoDup (bomlist : list bom_row) :
  NoDup (PART_CMB <$> create_component_list bomlist).
Proof. rewrite create_component_list_keys. apply NoDup_first_occurrences. Qed.

(** C7. For every sequence of component records, the parts list built by
    [create_component_list] has quantities that sum to the number of
    records, holds exactly one entry per distinct typeKey, in the order of
    first occurrence, and every quantity is at least one. *)
Theorem create_component_list_conservation (bomlist : list bom_row) :
  total_qty (create_component_list bomlist) = Z.of_nat (length bomlist)
  ∧ PART_CMB <$> create_component_list bomlist
    = first_occurrences (BOM_CMB <$> bomlist)
  ∧ NoDup (PART_CMB <$> create_component_list bomlist)
  ∧ (∀ k, k ∈ PART_CMB <$> create_component_list bomlist ↔ k ∈ BOM_CMB <$> bomlist)
  ∧ Forall (λ c, (1 ≤ PART_QTY c)%Z) (create_component_list bomlist).
Proof.
  split_and!.
  - unfold create_component_list. rewrite fold_count_step_total. simpl. lia.
  - apply create_component_list_keys.
  - apply create_component_list_NoDup.
  - intros k. rewrite create_component_list_keys. apply elem_of_first_occurrences.
  - apply fold_count_step_positive. constructor.
Qed.

(** * Properties of [optimize_part_list] *)

(** Writing two neighbours crosswise exchanges them. *)
Lemma swap_adjacent_spec {A} (l : list A) (j : nat) (a b : A) :
  l !! j = Some a → l !! (S j) = Some b →
  ∃ pre post, l = pre ++ a :: b :: post ∧ length pre = j
              ∧ <[j := b]> (<[S j := a]> l) = pre ++ b :: a :: post.
Proof.
  revert l. induction j as [|j IH]; intros l Ha Hb.
  - destruct l as [|x [|y l]]; simplify_eq/=. by exists [], l.
  - destruct l as [|x l]; simplify_eq/=.
    destruct (IH l Ha Hb) as (pre & post & -> & <- & Heq).
    exists (x :: pre), post. simpl. by rewrite Heq.
Qed.

Lemma exchange_up_spec {A} (l l' : list A) (i : nat) :
  exchange_up l i = Returned l' →
  ∃ pre a b post, l = pre ++ a :: b :: post ∧ length pre = i + 1
                  ∧ l' = pre ++ b :: a :: post.
Proof.
  unfold exchange_up. intros H.
  destruct (l !! (i + 2)) as [b|] eqn:Hb; [|done].
  destruct (l !! (i + 1)) as [a|] eqn:Ha; [|done].
  simplify_eq. replace (i + 2) with (S (i + 1)) in * by lia.
  destruct (swap_adjacent_spec l (i + 1) a b Ha Hb) as (pre & post & ? & ? & ?).
  by exists pre, a, b, post.
Qed.

Lemma exchange_down_spec {A} (l l' : list A) (i : nat) :
  1 ≤ i → exchange_down l i = Returned l' →
  ∃ pre a b post, l = pre ++ a :: b :: post ∧ length pre = i - 1
                  ∧ l' = pre ++ b :: a :: post.
Proof.
  unfold exchange_down. intros Hi H.
  destruct i as [|j]; [lia|]. replace (S j - 1) with j in * by lia.
  destruct (l !! j) as [a|] eqn:Ha; [|done].
  destruct (l !! S j) as [b|] eqn:Hb; [|done].
  simplify_eq.
  destruct (swap_adjacent_spec l j a b Ha Hb) as (pre & post & ? & ? & Heq).
  exists pre, a, b, post. split_and!; [done..|].
  rewrite <- Heq. apply list_insert_insert_ne. lia.
Qed.

(** Whichever branch is taken, the exchange swaps two neighbours. *)
Lemma exchange_at_spec {A} (l l' : list A) (i : nat) :
  exchange_at l i = Returned l' →
  ∃ pre a b post, l = pre ++ a :: b :: post ∧ l' = pre ++ b :: a :: post
    ∧ (length pre = i + 1 ∨ (1 ≤ i ∧ length pre = i - 1)).
Proof.
  unfold exchange_at. intros H.
  destruct (i <=? 17) eqn:E1; [destruct (i =? 0) eqn:E2|destruct (i =? 36) eqn:E2].
  - apply exchange_up_spec in H as (pre & a & b & post & ? & ? & ?).
    exists pre, a, b, post. auto.
  - apply Nat.eqb_neq in E2.
    apply exchange_down_spec in H as (pre & a & b & post & ? & ? & ?); [|lia].
    exists pre, a, b, post. split_and!; [done..|right; lia].
  - apply Nat.eqb_eq in E2.
    apply exchange_down_spec in H as (pre & a & b & post & ? & ? & ?); [|lia].
    exists pre, a, b, post. split_and!; [done..|right; lia].
  - apply exchange_up_spec in H as (pre & a & b & post & ? & ? & ?).
    exists pre, a, b, post. auto.
Qed.

Lemma exchange_at_Permutation {A} (l l' : list A) (i : nat) :
  exchange_at l i = Returned l' → l ≡ₚ l'.
Proof.
  intros H. apply exchange_at_spec in H as (pre & a & b & post & -> & -> & _).
  apply Permutation_app_head, perm_swap.
Qed.

Section OptimizerProperties.
Context {A : Type} (cmb : A → string).

Lemma optimize_from_Permutation (indices : list nat) (l : list A) (updated : bool) :
  l ≡ₚ (optimize_from cmb indices l updated).1.
Proof.
  revert l updated. induction indices as [|i indices IH]; intros l updated; simpl; [done|].
  destruct (l !! i) as [a|]; [|done].
  destruct (l !! (i + 1)) as [b|]; [|done].
  destruct (String.eqb (cmb a) (cmb b)); [|apply IH].
  destruct (exchange_at l i) as [l'|e] eqn:E; [|done].
  etrans; [by eapply exchange_at_Permutation|apply IH].
Qed.

Lemma optimize_part_list_Permutation (l : list A) (cnt : nat) :
  l ≡ₚ (optimize_part_list cmb l cnt).1.
Proof. apply optimize_from_Permutation. Qed.

Lemma optimize_passes_Permutation (n : nat) (l : list A) (cnt : nat) :
  l ≡ₚ optimize_passes cmb n l cnt.
Proof.
  induction n as [|n IH]; simpl; [done|].
  etrans; [apply IH|apply optimize_part_list_Permutation].
Qed.

Lemma optimize_while_Permutation (fuel : nat) (l : list A) (cnt printed : nat) res :
  optimize_while cmb fuel l cnt printed = Some res → l ≡ₚ res.1.1.
Proof.
  revert l printed. induction fuel as [|fuel IH]; intros l printed; simpl; [done|].
  pose proof (optimize_part_list_Permutation l cnt) as HP.
  destruct (optimize_part_list cmb l cnt) as [l' [[]|e]]; simpl in *.
  - intros H. etrans; [done|by eapply IH].
  - by intros [= <-].
  - by intros [= <-].
Qed.

(** C10. The optimiser only reorders: after one call, after any number
    of calls, and when the [while] loop of [main] ends, the list holds the
    same entries, each as often as before; an entry is the whole row, so
    no field of it, the feeder number included, has changed. *)
Theorem optimize_part_list_reorders_only (l : list A) (cnt : nat) :
  l ≡ₚ (optimize_part_list cmb l cnt).1
  ∧ (∀ n, l ≡ₚ optimize_passes cmb n l cnt)
  ∧ (∀ fuel, match optimize_while cmb fuel l cnt 0 with
             | Some (l', _, _) => l ≡ₚ l'
             | None => True
             end).
Proof.
  split_and!.
  - apply optimize_part_list_Permutation.
  - intros n. apply optimize_passes_Permutation.
  - intros fuel. destruct (optimize_while cmb fuel l cnt 0) as [[[l' r] m]|] eqn:E; [|done].
    by apply optimize_while_Permutation in E.
Qed.
End OptimizerProperties.

Section OptimizerFixpoint.
Context {A : Type} (cmb : A → string).

(** Once [updated] is set, a pass cannot return [False]. *)
Lemma optimize_from_updated (indices : list nat) (l l' : list A) (b : bool) :
  optimize_from cmb indices l true = (l', Returned b) → b = true.
Proof.
  revert l. induction indices as [|i indices IH]; intros l; simpl.
  - by intros [= _ <-].
  - destruct (l !! i) as [x|]; [|done].
    destruct (l !! (i + 1)) as [y|]; [|done].
    destruct (String.eqb (cmb x) (cmb y)); [|apply IH].
    destruct (exchange_at l i) as [l1|e]; [apply IH|done].
Qed.

(** A pass that returns [False] has found both entries of every pair it
    looked at, with different typeKeys, and has left the list alone. *)
Lemma optimize_from_unchanged (indices : list nat) (l l' : list A) :
  optimize_from cmb indices l false = (l', Returned false) →
  l' = l ∧ ∀ i, i ∈ indices →
             ∃ x y, l !! i = Some x ∧ l !! (i + 1) = Some y ∧ cmb x ≠ cmb y.
Proof.
  induction indices as [|i indices IH]; simpl.
  - intros [= <-]. split; [done|]. intros i Hi. by apply elem_of_nil in Hi.
  - destruct (l !! i) as [x|] eqn:Hx; [|done].
    destruct (l !! (i + 1)) as [y|] eqn:Hy; [|done].
    destruct (String.eqb_spec (cmb x) (cmb y)) as [Heq|Hne].
    + destruct (exchange_at l i) as [l1|e]; [|done].
      intros H. by apply optimize_from_updated in H.
    + intros H. destruct (IH H) as [-> Hall]. split; [done|].
      intros j [->|Hj]%elem_of_cons; [by exists x, y|by apply Hall].
Qed.

Lemma collisions_cons_cons (a b : A) (rest : list A) :
  collisions cmb (a :: b :: rest)
  = (if String.eqb (cmb a) (cmb b) then 1 else 0) + collisions cmb (b :: rest).
Proof. done. Qed.

Lemma collisions_zero (l : list A) :
  (∀ i x y, l !! i = Some x → l !! S i = Some y → cmb x ≠ cmb y) →
  collisions cmb l = 0.
Proof.
  induction l as [|a l IH]; intros H; [done|].
  destruct l as [|b l]; [done|].
  rewrite collisions_cons_cons, IH.
  - specialize (H 0 a b eq_refl eq_refl).
    by destruct (String.eqb_spec (cmb a) (cmb b)).
  - intros i x y Hx Hy. by apply (H (S i)).
Qed.

Lemma optimize_part_list_unchanged (l l' : list A) (cnt : nat) :
  optimize_part_list cmb l cnt = (l', Returned false) →
  l' = l ∧ collisions cmb (take cnt l) = 0.
Proof.
  intros H. apply optimize_from_unchanged in H as [-> Hall]. split; [done|].
  apply collisions_zero. intros i x y [Hx _]%lookup_take_Some [Hy Hlt]%lookup_take_Some.
  destruct (Hall i) as (x' & y' & Hx' & Hy' & Hne).
  { apply elem_of_seq. lia. }
  replace (i + 1) with (S i) in Hy' by lia. congruence.
Qed.

(** When the loop ends normally, its last pass ran on the final list and
    returned [False]. *)
Lemma optimize_while_last_pass (fuel : nat) (l l' : list A) (cnt printed n : nat) :
  optimize_while cmb fuel l cnt printed = Some (l', Returned tt, n) →
  optimize_part_list cmb l' cnt = (l', Returned false).
Proof.
  revert l printed. induction fuel as [|fuel IH]; intros l printed; simpl; [done|].
  destruct (optimize_part_list cmb l cnt) as [l1 [[]|e]] eqn:E.
  - apply IH.
  - intros [= <- <-]. by destruct (optimize_part_list_unchanged _ _ _ E) as [-> _].
  - done.
Qed.

(** C2. A pass that performs no exchange and returns [False] leaves the
    list as it was, and the first [cnt] entries then hold no two
    neighbours with the same typeKey; so when the [while] loop stops,
    no two neighbours among the first [cnt] entries share a typeKey. *)
Theorem optimize_fixpoint_no_adjacent (l : list A) (cnt : nat) :
  (∀ l', optimize_part_list cmb l cnt = (l', Returned false) →
         l' = l ∧ collisions cmb (take cnt l) = 0)
  ∧ (∀ fuel l' n, optimize_while cmb fuel l cnt 0 = Some (l', Returned tt, n) →
                  collisions cmb (take cnt l') = 0).
Proof.
  split.
  - intros l'. apply optimize_part_list_unchanged.
  - intros fuel l' n H. apply optimize_while_last_pass in H.
    by apply optimize_part_list_unchanged in H as [_ H].
Qed.
End OptimizerFixpoint.

Section OptimizerTermination.
Context {A : Type} (cmb : A → string).

Local Abbreviation same a b := (if String.eqb (cmb a) (cmb b) then 1 else 0).

Lemma collisions_app_cons (pre : list A) (y : A) (rest : list A) :
  collisions cmb (pre ++ y :: rest)
  = collisions cmb (pre ++ [y]) + collisions cmb (y :: rest).
Proof.
  induction pre as [|a pre IH]; [done|].
  destruct pre as [|b pre].
  - simpl app. rewrite !(collisions_cons_cons cmb a y). simpl. lia.
  - simpl app in *. rewrite !(collisions_cons_cons cmb a b), IH. lia.
Qed.

Lemma collisions_snoc (pre : list A) (x y : A) :
  collisions cmb (pre ++ [x; y]) = collisions cmb (pre ++ [x]) + same x y.
Proof. rewrite collisions_app_cons. simpl. lia. Qed.

Lemma collisions_cons_le (a : A) (l : list A) :
  collisions cmb l ≤ collisions cmb (a :: l).
Proof. destruct l as [|b l]; [done|]. rewrite collisions_cons_cons. lia. Qed.

Lemma count_key_app (k : string) (l1 l2 : list A) :
  count_key cmb k (l1 ++ l2) = count_key cmb k l1 + count_key cmb k l2.
Proof. unfold count_key. by rewrite filter_app, length_app. Qed.

Lemma count_key_cons (k : string) (a : A) (l : list A) :
  count_key cmb k (a :: l)
  = (if decide (cmb a = k) then 1 else 0) + count_key cmb k l.
Proof. unfold count_key. rewrite filter_cons. by destruct (decide (cmb a = k)). Qed.

Lemma at_most_twice_Permutation (l l' : list A) :
  l ≡ₚ l' → at_most_twice cmb l → at_most_twice cmb l'.
Proof. intros HP H k. unfold count_key. rewrite <- HP. apply H. Qed.

(** Unfolds the number of entries with the typeKey of [x] and compares
    the typeKeys that matter. *)
Local Ltac count_at H x :=
  let H' := fresh in
  pose proof (H (cmb x)) as H';
  repeat rewrite ?count_key_app, ?count_key_cons in H';
  repeat case_decide; repeat case_match;
  repeat match goal with
         | E : String.eqb _ _ = true |- _ => apply String.eqb_eq in E
         | E : String.eqb _ _ = false |- _ => apply String.eqb_neq in E
         end;
  try congruence; try lia.

(** The exchange of the branches that write [i+1] and [i+2]: the pair
    [x], [a] collides and [a] is moved one place up. *)
Lemma exchange_up_collisions (pre post : list A) (x a b : A) :
  at_most_twice cmb (pre ++ x :: a :: b :: post) →
  cmb x = cmb a →
  collisions cmb (pre ++ x :: b :: a :: post)
  < collisions cmb (pre ++ x :: a :: b :: post).
Proof.
  intros H Hxa.
  rewrite (collisions_app_cons pre x (b :: a :: post)).
  rewrite (collisions_app_cons pre x (a :: b :: post)).
  rewrite !collisions_cons_cons.
  assert (collisions cmb (a :: post) ≤ collisions cmb (b :: post)) as Hpost.
  { etrans; [|apply collisions_cons_le].
    destruct post as [|q post]; [done|].
    rewrite collisions_cons_cons. count_at H x. }
  count_at H x.
Qed.

(** The exchange of the branches that write [i-1] and [i]: the pair [x],
    [x'] collides and [x] is moved one place down. *)
Lemma exchange_down_collisions (pre post : list A) (p x x' : A) :
  at_most_twice cmb (pre ++ p :: x :: x' :: post) →
  cmb x = cmb x' →
  collisions cmb (pre ++ x :: p :: x' :: post)
  < collisions cmb (pre ++ p :: x :: x' :: post).
Proof.
  intros H Hxx.
  rewrite (collisions_app_cons pre x (p :: x' :: post)).
  rewrite (collisions_app_cons pre p (x :: x' :: post)).
  rewrite !collisions_cons_cons.
  assert (collisions cmb (pre ++ [x]) ≤ collisions cmb (pre ++ [p])) as Hpre.
  { destruct pre as [|z pre _] using rev_ind; [done|].
    rewrite <- !app_assoc. simpl app. rewrite !collisions_snoc.
    rewrite <- app_assoc in H. simpl app in H. count_at H x. }
  count_at H x.
Qed.

Lemma exchange_at_collisions (l l1 : list A) (i : nat) (x y : A) :
  at_most_twice cmb l →
  l !! i = Some x → l !! (i + 1) = Some y → cmb x = cmb y →
  exchange_at l i = Returned l1 →
  collisions cmb l1 < collisions cmb l.
Proof.
  intros H Hx Hy Hxy Hex.
  apply exchange_at_spec in Hex as (pre & a & b & post & -> & -> & [Hlen|[Hi Hlen]]).
  - destruct pre as [|z pre _] using rev_ind; [simpl in Hlen; lia|].
    rewrite length_app in Hlen. simpl in Hlen.
    assert (i = length pre) as -> by lia.
    rewrite <- app_assoc in Hx, Hy, H. rewrite <- !app_assoc. simpl app in *.
    rewrite list_lookup_middle in Hx by done.
    rewrite lookup_app_r in Hy by lia.
    replace (length pre + 1 - length pre) with 1 in Hy by lia.
    simplify_eq/=. by apply exchange_up_collisions.
  - assert (i = S (length pre)) as -> by lia.
    rewrite lookup_app_r in Hx, Hy by lia.
    replace (S (length pre) - length pre) with 1 in Hx by lia.
    replace (S (length pre) + 1 - length pre) with 2 in Hy by lia.
    destruct post as [|y' post]; simplify_eq/=.
    by apply exchange_down_collisions.
Qed.

(** A pass never adds a collision, and a pass that returns [True]
    removes one. *)
Lemma optimize_from_collisions (indices : list nat) (l : list A) (updated : bool) :
  at_most_twice cmb l →
  collisions cmb (optimize_from cmb indices l updated).1 ≤ collisions cmb l
  ∧ (updated = false →
     (optimize_from cmb indices l updated).2 = Returned true →
     collisions cmb (optimize_from cmb indices l updated).1 < collisions cmb l).
Proof.
  revert l updated. induction indices as [|i indices IH]; intros l updated H; simpl.
  - split; [done|]. by intros -> [=].
  - destruct (l !! i) as [x|] eqn:Hx; [|by split].
    destruct (l !! (i + 1)) as [y|] eqn:Hy; [|by split].
    destruct (String.eqb_spec (cmb x) (cmb y)) as [Heq|Hne]; [|by apply IH].
    destruct (exchange_at l i) as [l1|e] eqn:E; [|by split].
    pose proof (exchange_at_collisions l l1 i x y H Hx Hy Heq E) as Hlt.
    destruct (IH l1 true) as [Hle _].
    { eapply at_most_twice_Permutation; [|done]. by eapply exchange_at_Permutation. }
    split; [lia|]. intros _ _. lia.
Qed.

(** With a budget above the number of collisions the loop ends, and
    every larger budget gives the same result. *)
Lemma optimize_while_enough (n : nat) (l : list A) (cnt printed : nat) :
  at_most_twice cmb l → collisions cmb l ≤ n →
  ∃ res, ∀ fuel, n < fuel → optimize_while cmb fuel l cnt printed = Some res.
Proof.
  revert l printed. induction n as [|n IH]; intros l printed H Hn.
  - pose proof (optimize_from_collisions (seq 0 (cnt - 1)) l false H) as [_ Hlt].
    destruct (optimize_part_list cmb l cnt) as [l1 r] eqn:E.
    unfold optimize_part_list in E. rewrite E in Hlt. simpl in Hlt.
    destruct r as [[]|e].
    + specialize (Hlt eq_refl eq_refl). lia.
    + exists (l1, Returned tt, printed). intros [|fuel] ?; [lia|].
      simpl. unfold optimize_part_list. by rewrite E.
    + exists (l1, Raised e, printed). intros [|fuel] ?; [lia|].
      simpl. unfold optimize_part_list. by rewrite E.
  - pose proof (optimize_from_collisions (seq 0 (cnt - 1)) l false H) as [_ Hlt].
    pose proof (optimize_part_list_Permutation cmb l cnt) as HP.
    destruct (optimize_part_list cmb l cnt) as [l1 r] eqn:E.
    unfold optimize_part_list in E. rewrite E in Hlt. simpl in Hlt, HP.
    destruct r as [[]|e].
    + specialize (Hlt eq_refl eq_refl).
      destruct (IH l1 (S printed)) as [res Hres].
      { by eapply at_most_twice_Permutation. }
      { lia. }
      exists res. intros [|fuel] ?; [lia|].
      simpl. unfold optimize_part_list. rewrite E. apply Hres. lia.
    + exists (l1, Returned tt, printed). intros [|fuel] ?; [lia|].
      simpl. unfold optimize_part_list. by rewrite E.
    + exists (l1, Raised e, printed). intros [|fuel] ?; [lia|].
      simpl. unfold optimize_part_list. by rewrite E.
Qed.

(** The only exception a pass raises is [IndexError]. *)
Lemma optimize_from_raises (indices : list nat) (l : list A) (updated : bool) (e : exn) :
  (optimize_from cmb indices l updated).2 = Raised e → e = IndexError.
Proof.
  revert l updated. induction indices as [|i indices IH]; intros l updated; simpl; [done|].
  destruct (l !! i) as [x|]; [|by intros [= <-]].
  destruct (l !! (i + 1)) as [y|]; [|by intros [= <-]].
  destruct (String.eqb (cmb x) (cmb y)); [|apply IH].
  destruct (exchange_at l i) as [l1|e1] eqn:E; [apply IH|].
  simpl. intros [= <-]. unfold exchange_at, exchange_up, exchange_down in E.
  repeat case_match; by simplify_eq.
Qed.

Lemma optimize_while_raises (fuel : nat) (l l' : list A) (cnt printed n : nat) (e : exn) :
  optimize_while cmb fuel l cnt printed = Some (l', Raised e, n) → e = IndexError.
Proof.
  revert l printed. induction fuel as [|fuel IH]; intros l printed; simpl; [done|].
  pose proof (optimize_from_raises (seq 0 (cnt - 1)) l false) as Hr.
  unfold optimize_part_list.
  destruct (optimize_from cmb (seq 0 (cnt - 1)) l false) as [l1 [[]|e1]]; simpl in Hr.
  - apply IH.
  - done.
  - intros [= <- <- <-]. by apply Hr.
Qed.
End OptimizerTermination.

(** * Properties of the splitting loop *)

Lemma int_half_floor (q : Z) : (0 ≤ q)%Z → int_half q = floor_half q.
Proof. intros H. unfold int_half, floor_half. by apply Z.quot_div_nonneg. Qed.

Lemma over_half_positive (q : Z) (cnt : nat) : over_half q cnt = true → (1 ≤ q)%Z.
Proof. unfold over_half. intros H%Z.ltb_lt. lia. Qed.

Lemma split_step_over (cnt : nat) (p : part) :
  over_half (PART_QTY p) cnt = true →
  split_step cnt p
  = (set_PART_QTY p (floor_half (PART_QTY p)), [set_PART_QTY p (remainder (PART_QTY p))]).
Proof.
  intros H. unfold split_step. rewrite H. simpl.
  rewrite int_half_floor by (apply over_half_positive in H; lia). done.
Qed.

Lemma split_step_under (cnt : nat) (p : part) :
  over_half (PART_QTY p) cnt = false → split_step cnt p = (p, []).
Proof. intros H. unfold split_step. by rewrite H. Qed.

Lemma split_step_cmb (cnt : nat) (p : part) :
  PART_CMB (split_step cnt p).1 = PART_CMB p.
Proof. unfold split_step. by destruct (over_half (PART_QTY p) cnt). Qed.

(** The loop treats each entry of [col] by itself. *)
Lemma split_parts_fst (cnt : nat) (col : list part) :
  (split_parts cnt col).1 = (λ p, (split_step cnt p).1) <$> col.
Proof.
  induction col as [|p col IH]; [done|]. simpl.
  destruct (split_step cnt p) as [p' item]. destruct (split_parts cnt col) as [col' adders].
  simpl in *. by rewrite IH.
Qed.

Lemma split_parts_snd (cnt : nat) (col : list part) :
  (split_parts cnt col).2
  = (λ p, set_PART_QTY p (remainder (PART_QTY p)))
    <$> filter (λ p, over_half (PART_QTY p) cnt = true) col.
Proof.
  induction col as [|p col IH]; [done|]. simpl.
  destruct (over_half (PART_QTY p) cnt) eqn:E.
  - rewrite (split_step_over _ _ E). destruct (split_parts cnt col) as [col' adders].
    simpl in *. rewrite filter_cons_True by done. by rewrite IH.
  - rewrite (split_step_under _ _ E). destruct (split_parts cnt col) as [col' adders].
    simpl in *. rewrite filter_cons_False by congruence. done.
Qed.

Lemma add_adders_eq (cnt : nat) (col : list part) :
  add_adders cnt col = (split_parts cnt col).1 ++ (split_parts cnt col).2.
Proof. unfold add_adders. by destruct (split_parts cnt col). Qed.

Lemma split_parts_fst_keys (cnt : nat) (col : list part) :
  PART_CMB <$> (split_parts cnt col).1 = PART_CMB <$> col.
Proof.
  rewrite split_parts_fst, <- list_fmap_compose. apply list_fmap_ext.
  intros _ p _. apply split_step_cmb.
Qed.

Lemma split_parts_snd_keys (cnt : nat) (col : list part) :
  PART_CMB <$> (split_parts cnt col).2
  = PART_CMB <$> filter (λ p, over_half (PART_QTY p) cnt = true) col.
Proof. rewrite split_parts_snd, <- list_fmap_compose. done. Qed.

(** In a list without repeated keys a key is counted once or not at all. *)
Lemma count_key_NoDup {A} (cmb : A → string) (k : string) (l : list A) :
  NoDup (cmb <$> l) →
  count_key cmb k l = if decide (k ∈ cmb <$> l) then 1 else 0.
Proof.
  unfold count_key. induction l as [|a l IH]; csimpl; intros H.
  - done.
  - apply NoDup_cons in H as [Hnin H]. specialize (IH H).
    destruct (decide (cmb a = k)) as [<-|Hne];
      [rewrite filter_cons_True by done|rewrite filter_cons_False by done];
      simpl; rewrite IH; repeat case_decide;
      rewrite ?elem_of_cons in *; naive_solver.
Qed.

Lemma count_key_fmap {A B} (f : A → B) (cmbA : A → string) (cmbB : B → string)
    (k : string) (l : list A) :
  (∀ a, cmbB (f a) = cmbA a) → count_key cmbB k (f <$> l) = count_key cmbA k l.
Proof.
  intros Hf. unfold count_key. induction l as [|a l IH]; [done|]. csimpl.
  rewrite !filter_cons, Hf. destruct (decide (cmbA a = k)); simpl; by rewrite IH.
Qed.

Lemma NoDup_filter_keys (P : part → Prop) `{!∀ p, Decision (P p)} (col : list part) :
  NoDup (PART_CMB <$> col) → NoDup (PART_CMB <$> filter P col).
Proof.
  intros Hnd. eapply sublist_NoDup; [done|]. apply fmap_sublist, sublist_filter.
Qed.

(** After the adders are appended, a part that was split is there twice
    and any other part once. *)
Lemma add_adders_count (cnt : nat) (col : list part) (p : part) :
  NoDup (PART_CMB <$> col) → p ∈ col →
  count_key PART_CMB (PART_CMB p) (add_adders cnt col)
  = if over_half (PART_QTY p) cnt then 2 else 1.
Proof.
  intros Hnd Hp. rewrite add_adders_eq, count_key_app.
  rewrite (count_key_NoDup _ _ (split_parts cnt col).1)
    by (by rewrite split_parts_fst_keys).
  rewrite split_parts_fst_keys.
  rewrite decide_True by (by apply list_elem_of_fmap_2).
  rewrite split_parts_snd.
  rewrite (count_key_fmap _ PART_CMB PART_CMB) by done.
  rewrite count_key_NoDup by (by apply NoDup_filter_keys).
  destruct (over_half (PART_QTY p) cnt) eqn:E.
  - rewrite decide_True; [done|].
    apply list_elem_of_fmap_2. by apply list_elem_of_filter.
  - rewrite decide_False; [done|].
    intros (p' & Hk & [Hover Hp']%list_elem_of_filter)%list_elem_of_fmap.
    apply list_elem_of_lookup in Hp as [i Hi]. apply list_elem_of_lookup in Hp' as [j Hj].
    assert (i = j) as ->.
    { eapply (NoDup_lookup _ _ _ (PART_CMB p) Hnd); rewrite list_lookup_fmap.
      - by rewrite Hi.
      - rewrite Hj. simpl. by rewrite Hk. }
    congruence.
Qed.

Lemma add_adders_at_most_twice (cnt : nat) (col : list part) :
  NoDup (PART_CMB <$> col) → at_most_twice PART_CMB (add_adders cnt col).
Proof.
  intros Hnd k. rewrite add_adders_eq, count_key_app.
  rewrite (count_key_NoDup _ _ (split_parts cnt col).1)
    by (by rewrite split_parts_fst_keys).
  rewrite split_parts_snd, (count_key_fmap _ PART_CMB PART_CMB) by done.
  rewrite count_key_NoDup by (by apply NoDup_filter_keys).
  repeat case_decide; lia.
Qed.

(** C6, as the code has it. A part of the parts list whose quantity [q]
    is above [cnt/2] is there exactly twice afterwards: in its old place
    with [floor(q/2)], and among the appended entries with
    [q - floor(q/2)].  The two sum to [q]; the appended one is at least 1
    and at least the other, and larger when [q] is odd; the one left in
    place is at least 1 exactly when [q] is at least 2. *)
Theorem split_quantities (v : list bom_row) (i : nat) (p : part) :
  let col := create_component_list v in
  let cnt := feeder_cnt col in
  let q := PART_QTY p in
  col !! i = Some p → over_half q cnt = true →
  (split_parts cnt col).1 !! i = Some (set_PART_QTY p (floor_half q))
  ∧ set_PART_QTY p (remainder q) ∈ (split_parts cnt col).2
  ∧ count_key PART_CMB (PART_CMB p) (add_adders cnt col) = 2
  ∧ (floor_half q + remainder q = q)%Z
  ∧ (1 ≤ remainder q)%Z
  ∧ (floor_half q ≤ remainder q)%Z
  ∧ (Z.odd q = true → floor_half q < remainder q)%Z
  ∧ (1 ≤ floor_half q ↔ 2 ≤ q)%Z.
Proof.
  intros col cnt q Hi Hover.
  pose proof (over_half_positive _ _ Hover) as Hq.
  pose proof (create_component_list_NoDup v) as Hnd.
  assert (p ∈ col) as Hp by (by eapply list_elem_of_lookup_2).
  unfold floor_half, remainder. split_and!.
  - rewrite split_parts_fst, list_lookup_fmap, Hi. simpl.
    by rewrite (split_step_over _ _ Hover).
  - rewrite split_parts_snd.
    apply (list_elem_of_fmap_2 (λ p, set_PART_QTY p (remainder (PART_QTY p)))).
    by apply list_elem_of_filter.
  - rewrite (add_adders_count cnt col p Hnd Hp). fold q. by rewrite Hover.
  - lia.
  - pose proof (Z.div_lt_upper_bound q 2 q). lia.
  - pose proof (Z_div_mod_eq_full q 2). pose proof (Z.mod_pos_bound q 2). lia.
  - intros [m Hm]%Z.odd_spec.
    pose proof (Z_div_mod_eq_full q 2). pose proof (Z.mod_pos_bound q 2). lia.
  - pose proof (Z_div_mod_eq_full q 2). pose proof (Z.mod_pos_bound q 2). lia.
Qed.

(** An adder carries the key of a part exactly when that part was split. *)
Lemma split_parts_snd_key (cnt : nat) (col : list part) (p : part) :
  NoDup (PART_CMB <$> col) → p ∈ col →
  PART_CMB p ∈ PART_CMB <$> (split_parts cnt col).2
  ↔ over_half (PART_QTY p) cnt = true.
Proof.
  intros Hnd Hp. rewrite split_parts_snd_keys. split.
  - intros (p' & Hk & [Hover Hp']%list_elem_of_filter)%list_elem_of_fmap.
    apply list_elem_of_lookup in Hp as [i Hi]. apply list_elem_of_lookup in Hp' as [j Hj].
    assert (i = j) as ->; [|congruence].
    eapply (NoDup_lookup _ _ _ (PART_CMB p) Hnd); rewrite list_lookup_fmap.
    + by rewrite Hi.
    + rewrite Hj. simpl. by rewrite Hk.
  - intros Hover. apply list_elem_of_fmap_2. by apply list_elem_of_filter.
Qed.

(** C1, as the code has it. The splitting loop runs over the whole parts
    list, whatever the rank of a part: a part whose quantity is above
    [cnt/2] gets a smaller quantity in its place and a duplicate among the
    adders; any other part keeps its quantity and gets no duplicate. *)
Theorem split_ignores_rank (v : list bom_row) (i : nat) (p : part) :
  let col := create_component_list v in
  let cnt := feeder_cnt col in
  let q := PART_QTY p in
  col !! i = Some p →
  if over_half q cnt
  then (split_parts cnt col).1 !! i = Some (set_PART_QTY p (floor_half q))
       ∧ floor_half q ≠ q
       ∧ PART_CMB p ∈ PART_CMB <$> (split_parts cnt col).2
  else (split_parts cnt col).1 !! i = Some p
       ∧ PART_CMB p ∉ PART_CMB <$> (split_parts cnt col).2.
Proof.
  intros col cnt q Hi.
  pose proof (create_component_list_NoDup v) as Hnd.
  assert (p ∈ col) as Hp by (by eapply list_elem_of_lookup_2).
  pose proof (split_parts_snd_key cnt col p Hnd Hp) as Hkey.
  rewrite split_parts_fst, list_lookup_fmap, Hi. simpl. fold q in Hkey |- *.
  destruct (over_half q cnt) eqn:Hover.
  - rewrite (split_step_over _ _ Hover). apply over_half_positive in Hover.
    split_and!; [done| |by apply Hkey].
    unfold floor_half. pose proof (Z.div_lt_upper_bound q 2 q). lia.
  - rewrite (split_step_under _ _ Hover). split; [done|].
    rewrite Hkey. done.
Qed.

(** * Sorting *)

Lemma insert_sorted_Permutation {A} (lt : A → A → bool) (x : A) (l : list A) :
  insert_sorted lt x l ≡ₚ x :: l.
Proof.
  induction l as [|y l IH]; simpl; [done|].
  destruct (lt y x); [|done]. rewrite IH. apply perm_swap.
Qed.

Lemma py_sorted_Permutation {A} (lt : A → A → bool) (l : list A) :
  py_sorted lt l ≡ₚ l.
Proof.
  induction l as [|x l IH]; simpl; [done|].
  rewrite insert_sorted_Permutation. by rewrite IH.
Qed.

Lemma py_sorted_length {A} (lt : A → A → bool) (l : list A) :
  length (py_sorted lt l) = length l.
Proof. apply Permutation_length, py_sorted_Permutation. Qed.

(** * Properties of the distribution *)

Lemma l1_ptrn_length : length l1_ptrn = 38.
Proof. done. Qed.

Lemma l1_ptrn_Permutation : l1_ptrn ≡ₚ seq 0 38.
Proof. rewrite <- (merge_sort_Permutation Nat.le l1_ptrn). by vm_compute. Qed.

Lemma feeder_cnt_min (col : list part) : feeder_cnt col = length col `min` 38.
Proof.
  unfold feeder_cnt. rewrite l1_ptrn_length.
  destruct (Nat.ltb_spec 38 (length col)); lia.
Qed.

Lemma add_adders_length (cnt : nat) (col : list part) :
  length col ≤ length (add_adders cnt col).
Proof.
  rewrite add_adders_eq, length_app, split_parts_fst, length_fmap. lia.
Qed.

(** Within the two lists the loop pairs entries with pattern positions. *)
Lemma distribute_from_spec (n s : nat) (cl : list part) (fl : list feeder_part) :
  s + n ≤ length cl → s + n ≤ length l1_ptrn →
  distribute_from (seq s n) cl fl
  = Returned (fl ++ zip_with mkFeeder (take n (drop s cl)) (take n (drop s l1_ptrn))).
Proof.
  revert s fl. induction n as [|n IH]; intros s fl Hcl Hpt; simpl.
  - by rewrite app_nil_r.
  - destruct (lookup_lt_is_Some_2 cl s) as [p Hp]; [lia|].
    destruct (lookup_lt_is_Some_2 l1_ptrn s) as [f Hf]; [lia|].
    rewrite Hp, Hf, IH by lia.
    rewrite (drop_S _ _ _ Hp), (drop_S _ _ _ Hf). simpl.
    by rewrite <- app_assoc.
Qed.

Lemma distribute_spec (cl : list part) (cnt : nat) :
  cnt ≤ length cl → cnt ≤ length l1_ptrn →
  distribute cl cnt = Returned (zip_with mkFeeder (take cnt cl) (take cnt l1_ptrn)).
Proof. intros. unfold distribute. by rewrite distribute_from_spec. Qed.

(** The list [fl] of [main]: never an [IndexError]. *)
Lemma feeder_table_spec (v : list bom_row) :
  let col := create_component_list v in
  let cnt := feeder_cnt col in
  let cl := sorted_by_qty_rev (add_adders cnt col) in
  let fl := zip_with mkFeeder (take cnt cl) (take cnt l1_ptrn) in
  distribute cl cnt = Returned fl
  ∧ feeder_table v = (cnt, Returned (sorted_by_fdr fl))
  ∧ fp_part <$> fl = take cnt cl
  ∧ PART_FDR <$> fl = take cnt l1_ptrn
  ∧ length fl = cnt.
Proof.
  intros col cnt cl fl.
  assert (cnt ≤ length cl) as Hcl.
  { unfold cl, sorted_by_qty_rev. rewrite py_sorted_length.
    etrans; [|apply add_adders_length]. unfold cnt. rewrite feeder_cnt_min. lia. }
  assert (cnt ≤ length l1_ptrn) as Hpt.
  { unfold cnt. rewrite feeder_cnt_min, l1_ptrn_length. lia. }
  assert (distribute cl cnt = Returned fl) as Hd by (by apply distribute_spec).
  split_and!.
  - done.
  - unfold feeder_table. fold col cnt cl. by rewrite Hd.
  - apply fmap_zip_with_l; [done|]. rewrite !length_take. lia.
  - apply fmap_zip_with_r; [done|]. rewrite !length_take. lia.
  - unfold fl. rewrite length_zip_with, !length_take. lia.
Qed.

(** C8. The distribution gives the [i]-th ranked entry, for [i] below
    [cnt = min(number of parts, 38)], the slot [l1_ptrn[i]]; the slots
    given are pairwise distinct and at most 37; and [l1_ptrn] is a
    permutation of 0..37 that starts at 19 and alternates outwards: 19,
    18, 20, 17, 21, ... *)
Theorem distribution_slots_unique (v : list bom_row) :
  let col := create_component_list v in
  let cnt := feeder_cnt col in
  let cl := sorted_by_qty_rev (add_adders cnt col) in
  cnt = length col `min` 38
  ∧ (∃ fl, distribute cl cnt = Returned fl
      ∧ feeder_table v = (cnt, Returned (sorted_by_fdr fl))
      ∧ length fl = cnt
      ∧ (∀ i, i < cnt → ∃ e, fl !! i = Some e ∧ cl !! i = Some (fp_part e)
                              ∧ l1_ptrn !! i = Some (PART_FDR e))
      ∧ NoDup (PART_FDR <$> fl)
      ∧ Forall (λ e, PART_FDR e ≤ 37) fl
      ∧ NoDup (PART_FDR <$> sorted_by_fdr fl)
      ∧ Forall (λ e, PART_FDR e ≤ 37) (sorted_by_fdr fl))
  ∧ l1_ptrn ≡ₚ seq 0 38
  ∧ (∀ k, k < 19 → l1_ptrn !! (2 * k) = Some (19 + k)
                    ∧ l1_ptrn !! (2 * k + 1) = Some (18 - k)).
Proof.
  intros col cnt cl.
  destruct (feeder_table_spec v) as (Hd & Ht & Hparts & Hslots & Hlen).
  fold col cnt cl in Hd, Ht, Hparts, Hslots, Hlen.
  set (fl := zip_with mkFeeder (take cnt cl) (take cnt l1_ptrn)) in *.
  assert (NoDup l1_ptrn) as Hnd.
  { rewrite l1_ptrn_Permutation. apply NoDup_seq. }
  assert (Forall (λ s, s ≤ 37) l1_ptrn) as Hle.
  { rewrite l1_ptrn_Permutation. apply Forall_seq. lia. }
  assert (NoDup (PART_FDR <$> fl)) as Hnd'.
  { rewrite Hslots. eapply sublist_NoDup; [done|apply sublist_take]. }
  assert (Forall (λ e, PART_FDR e ≤ 37) fl) as Hle'.
  { apply (Forall_fmap PART_FDR (λ s, s ≤ 37)). rewrite Hslots. by apply Forall_take. }
  split_and!.
  - apply feeder_cnt_min.
  - exists fl. split_and!; try done.
    + intros i Hi. destruct (lookup_lt_is_Some_2 fl i) as [e He]; [lia|].
      exists e. split_and!; [done| |].
      * pose proof (f_equal (.!! i) Hparts) as H. simpl in H.
        rewrite list_lookup_fmap, He, lookup_take_lt in H by done. done.
      * pose proof (f_equal (.!! i) Hslots) as H. simpl in H.
        rewrite list_lookup_fmap, He, lookup_take_lt in H by done. done.
    + unfold sorted_by_fdr. by rewrite py_sorted_Permutation.
    + unfold sorted_by_fdr. by rewrite py_sorted_Permutation.
  - apply l1_ptrn_Permutation.
  - intros k Hk. do 19 (destruct k as [|k]; [by vm_compute|]). lia.
Qed.

(** * Termination of the optimiser loop *)

Section OptimizerLoop.
Context {A : Type} (cmb : A → string).

Lemma count_key_positive (k : string) (l : list A) :
  count_key cmb k l ≠ 0 → ∃ a, a ∈ l ∧ cmb a = k.
Proof.
  unfold count_key. intros H.
  destruct (filter (λ a, cmb a = k) l) as [|a l'] eqn:E; [done|].
  assert (a ∈ filter (λ a, cmb a = k) l) as Ha by (rewrite E; left).
  apply list_elem_of_filter in Ha as [Hk Ha]. by exists a.
Qed.

Lemma at_most_twiceb_correct (l : list A) :
  at_most_twiceb cmb l = true → at_most_twice cmb l.
Proof.
  unfold at_most_twiceb. rewrite forallb_forall. intros H k.
  destruct (decide (count_key cmb k l = 0)) as [->|Hne]; [lia|].
  apply count_key_positive in Hne as (a & Ha & <-).
  apply Nat.leb_le, H. by apply list_elem_of_In.
Qed.

Lemma collisions_le_length (l : list A) : collisions cmb l ≤ length l.
Proof.
  induction l as [|a l IH]; [done|]. destruct l as [|b l]; [simpl; lia|].
  rewrite collisions_cons_cons. simpl length in *. case_match; lia.
Qed.

(** C3, as the code has it. The loop has no budget of its own.  On a
    list in which no typeKey occurs more than twice it ends all the same:
    any budget above the number of collisions is enough, and the loop then
    either leaves no two neighbours with the same typeKey among the first
    [cnt] entries or has raised [IndexError]. *)
Theorem optimize_while_terminates (l : list A) (cnt : nat) :
  at_most_twice cmb l →
  ∃ l' r n,
    (∀ fuel, collisions cmb l < fuel →
             optimize_while cmb fuel l cnt 0 = Some (l', r, n))
    ∧ match r with
      | Returned _ => collisions cmb (take cnt l') = 0
      | Raised e => e = IndexError
      end.
Proof.
  intros H.
  destruct (optimize_while_enough cmb (collisions cmb l) l cnt 0 H) as [[[l' r] n] Hres];
    [done|].
  exists l', r, n. split; [done|].
  specialize (Hres (S (collisions cmb l))). destruct r as [[]|e].
  - assert (optimize_part_list cmb l' cnt = (l', Returned false)) as Hlast.
    { eapply optimize_while_last_pass. apply Hres. lia. }
    by apply optimize_part_list_unchanged in Hlast as [_ Hzero].
  - eapply optimize_while_raises. apply Hres. lia.
Qed.
End OptimizerLoop.

(** * The feeder list of [main] ends *)

Lemma count_key_take {A} (cmb : A → string) (k : string) (n : nat) (l : list A) :
  count_key cmb k (take n l) ≤ count_key cmb k l.
Proof.
  rewrite <- (take_drop n l) at 2. rewrite count_key_app. lia.
Qed.

(** The list handed to the optimiser holds no typeKey more than twice. *)
Lemma feeder_table_at_most_twice (v : list bom_row) :
  ∃ fls, feeder_table v = (feeder_cnt (create_component_list v), Returned fls)
         ∧ at_most_twice entry_cmb fls
         ∧ length fls = feeder_cnt (create_component_list v).
Proof.
  destruct (feeder_table_spec v) as (_ & Ht & Hparts & _ & Hlen).
  eexists. split_and!; [exact Ht| |].
  - eapply at_most_twice_Permutation; [symmetry; apply py_sorted_Permutation|].
    intros k.
    rewrite <- (count_key_fmap fp_part entry_cmb PART_CMB) by done.
    rewrite Hparts. etrans; [apply count_key_take|].
    eapply at_most_twice_Permutation; [symmetry; apply py_sorted_Permutation|].
    apply add_adders_at_most_twice.
    apply create_component_list_NoDup.
  - unfold sorted_by_fdr. by rewrite py_sorted_length.
Qed.

Lemma feeder_section_terminates (parsed : namespace) (v : list bom_row) (w : world) :
  ∃ res, ∀ fuel, 38 < fuel → feeder_section fuel parsed v w = Some res.
Proof.
  unfold feeder_section. destruct (requested (arg_feederlist parsed)) as [name|]; [|by eexists].
  destruct (feeder_table_at_most_twice v) as (fls & -> & Htwice & Hlen).
  destruct (optimize_while_enough entry_cmb 38 fls
              (feeder_cnt (create_component_list v)) 0 Htwice) as [[[fls' r] n] Hres].
  { etrans; [apply collisions_le_length|]. rewrite Hlen, feeder_cnt_min. lia. }
  destruct r as [[]|e]; [destruct (write_rows feeder_line 0 fls') as [rows res'] eqn:E|];
    eexists; intros fuel Hfuel; rewrite (Hres fuel Hfuel); rewrite ?E; reflexivity.
Qed.

Lemma generate_terminates (natsorted : list bom_row → list bom_row)
    (parsed : namespace) (v : list bom_row) (w : world) :
  ∃ res, ∀ fuel, 38 < fuel → generate natsorted fuel parsed v w = Some res.
Proof.
  unfold generate.
  destruct (bom_section natsorted parsed v w) as [w1 [[]|e1]]; [|by eexists].
  destruct (parts_section parsed v w1) as [w2 [[]|e2]]; [|by eexists].
  destruct (feeder_section_terminates parsed v w2) as [[w3 [[]|e3]] Hres];
    eexists; intros fuel Hfuel; rewrite (Hres fuel Hfuel); reflexivity.
Qed.

(** Whatever the arguments and the file, [main] ends: a budget of 39
    passes is never used up. *)
Lemma main_terminates (natsorted : list bom_row → list bom_row) (argv : list string)
    (parsed : namespace) (fs : string → outcome (list string)) :
  ∃ res, ∀ fuel, 38 < fuel → main natsorted fuel argv parsed fs = Some res.
Proof.
  unfold main. destruct (length argv <? 2); [by eexists|].
  destruct (read_bom fs (default "" (argv !! 1)) banner) as [v w].
  apply generate_terminates.
Qed.

(** * Reading the BOM *)

Lemma parse_line_short (line : string) :
  length (split_whitespace (replace_comma line)) < 6 →
  parse_line line = Raised IndexError.
Proof.
  intros H. unfold parse_line.
  assert (split_whitespace (replace_comma line) !! 5 = None) as H5
    by (apply lookup_ge_None; lia).
  rewrite H5. by repeat case_match.
Qed.

Lemma read_lines_app (l1 l2 : list string) (v : list bom_row) :
  read_lines (l1 ++ l2) v
  = match read_lines l1 v with
    | (v', Returned _) => read_lines l2 v'
    | (v', Raised e) => (v', Raised e)
    end.
Proof.
  revert v. induction l1 as [|line l1 IH]; intros v; simpl; [done|].
  destruct (negb (skipped line)); [|apply IH].
  destruct (parse_line line) as [nl|e]; [apply IH|done].
Qed.

Lemma read_bom_failure (fs : string → outcome (list string)) (filename : string)
    (v : list bom_row) (e : exn) (w : world) :
  read_failure fs filename v e → read_bom fs filename w = (v, report e filename w).
Proof.
  intros [e' Hopen|good bad rest v' Hfile Hgood Hkept Hshort]; unfold read_bom.
  - by rewrite Hopen.
  - rewrite Hfile, read_lines_app, Hgood. simpl.
    rewrite Hkept. simpl. by rewrite (parse_line_short _ Hshort).
Qed.

Lemma read_bom_success (fs : string → outcome (list string)) (filename : string)
    (lines : list string) (v : list bom_row) (w : world) :
  fs filename = Returned lines → read_lines lines [] = (v, Returned tt) →
  read_bom fs filename w = (v, w).
Proof. intros Hfile Hlines. unfold read_bom. by rewrite Hfile, Hlines. Qed.

(** What a section writes and how it ends does not depend on what was
    printed before. *)
Lemma generate_same_result (natsorted : list bom_row → list bom_row) (fuel : nat)
    (parsed : namespace) (v : list bom_row) (w1 w2 : world) :
  files w1 = files w2 →
  same_result (generate natsorted fuel parsed v w1) (generate natsorted fuel parsed v w2).
Proof.
  intros Hf. unfold generate, bom_section, parts_section, feeder_section, write_section.
  repeat (case_match; simplify_eq/=); rewrite ?Hf; done.
Qed.

(** C9, as the code has it. When the file cannot be opened, or a line
    that is not skipped has fewer than six tokens, the handler prints
    [Could not open file] with the file name and then the text of the
    exception; the run goes on with the records read before the failure,
    and writes the files and ends as a run does whose input holds just
    those records. *)
Theorem read_failure_not_fatal (natsorted : list bom_row → list bom_row) (fuel : nat)
    (argv : list string) (parsed : namespace) (fs : string → outcome (list string))
    (filename : string) (v : list bom_row) (e : exn) :
  argv !! 1 = Some filename →
  read_failure fs filename v e →
  main natsorted fuel argv parsed fs
  = generate natsorted fuel parsed v (report e filename banner)
  ∧ (∀ fs' lines, fs' filename = Returned lines →
       read_lines lines [] = (v, Returned tt) →
       same_result (main natsorted fuel argv parsed fs)
                   (main natsorted fuel argv parsed fs')).
Proof.
  intros Hargv Hfail.
  assert ((length argv <? 2) = false) as Hlen.
  { apply Nat.ltb_ge. apply lookup_lt_Some in Hargv. lia. }
  assert (main natsorted fuel argv parsed fs
          = generate natsorted fuel parsed v (report e filename banner)) as Hmain.
  { unfold main. rewrite Hlen, Hargv. simpl.
    by rewrite (read_bom_failure _ _ _ _ _ Hfail). }
  split; [done|].
  intros fs' lines Hfile Hlines. rewrite Hmain.
  unfold main. rewrite Hlen, Hargv. simpl.
  rewrite (read_bom_success _ _ _ _ _ Hfile Hlines).
  by apply generate_same_result.
Qed.

(** * The claims on concrete inputs *)

(** C4. Two part types with 3 and 1 placements give a feeder list of
    [cnt = 2] rows with the same typeKey; the first pass of the optimiser
    reads [bomlist[2]] and the run ends with an uncaught [IndexError],
    the parts list written and the feeder list not. *)
Theorem optimize_part_list_index_out_of_range
    (natsorted : list bom_row → list bom_row) (fuel : nat) :
  let fls := [sample_entry "10k|0402" 1 18; sample_entry "10k|0402" 2 19] in
  feeder_table (read_lines two_types []).1 = (2, Returned fls)
  ∧ optimize_part_list entry_cmb fls 2 = (fls, Raised IndexError)
  ∧ main natsorted (S fuel) sample_argv sample_parsed (one_file "bom.txt" two_types)
    = Some (mkWorld
              ["BOM Manager utility V0.2";
               "(C) 2019-2022 Invector Embedded Systems AB, Written by Pontus Oldberg";
               "Generating a list of used parts (Inventory picking list) !";
               "Generating feeder list !"]
              [("parts.csv",
                [[CStr "Part"; CStr "Description"; CStr "Package"; CStr "Count"];
                 [CInt 1; CStr "1uF"; CStr "0603"; CInt 1];
                 [CInt 2; CStr "10k"; CStr "0402"; CInt 3]])],
            Uncaught IndexError).
Proof. split_and!; by vm_compute. Qed.

(** C5. Four part types with 10, 10, 5 and 2 placements: one pass of the
    optimiser exchanges two rows, and the feeder numbers written are 18,
    20, 19, 21, each the number the row was given before the exchange. *)
Theorem feeder_numbers_not_ascending
    (natsorted : list bom_row → list bom_row) (fuel : nat) :
  main natsorted (S (S fuel)) sample_argv sample_parsed (one_file "bom.txt" four_types)
  = Some (mkWorld
            ["BOM Manager utility V0.2";
             "(C) 2019-2022 Invector Embedded Systems AB, Written by Pontus Oldberg";
             "Generating a list of used parts (Inventory picking list) !";
             "Generating feeder list !"; "optimizing......"]
            [("parts.csv",
              [[CStr "Part"; CStr "Description"; CStr "Package"; CStr "Count"];
               [CInt 1; CStr "1uF"; CStr "0603"; CInt 10];
               [CInt 2; CStr "red"; CStr "0805"; CInt 5];
               [CInt 3; CStr "10k"; CStr "0402"; CInt 10];
               [CInt 4; CStr "lm358"; CStr "so8"; CInt 2]]);
             ("feeders.csv",
              [[CStr "Feeder"; CStr "Description"; CStr "Package"; CStr "Count"];
               [CInt 18; CStr "1uF"; CStr "0603"; CInt 5];
               [CInt 20; CStr "10k"; CStr "0402"; CInt 5];
               [CInt 19; CStr "1uF"; CStr "0603"; CInt 5];
               [CInt 21; CStr "10k"; CStr "0402"; CInt 5]])],
          Finished).
Proof. by vm_compute. Qed.

(** C1, the claim as stated fails: with 39 part types of 20 placements
    each, [cnt] is 38 and the last part is not among the 38 best ranked;
    its quantity is above 19, so it is split all the same. *)
Lemma split_outside_candidates :
  feeder_cnt crowded = 38
  ∧ crowded !! 38 = Some crowded_last
  ∧ (PART_CMB crowded_last
     ∉ PART_CMB <$> take (feeder_cnt crowded) (sorted_by_qty_rev crowded))
  ∧ over_half (PART_QTY crowded_last) (feeder_cnt crowded) = true
  ∧ (split_parts (feeder_cnt crowded) crowded).1 !! 38
    = Some (set_PART_QTY crowded_last 10)
  ∧ (split_parts (feeder_cnt crowded) crowded).2 !! 38
    = Some (set_PART_QTY crowded_last 10).
Proof.
  split_and!; try by vm_compute.
  apply (bool_decide_unpack _). by vm_compute.
Qed.

Lemma split_ignores_rank_witness :
  mixed !! 1 = Some mixed_second
  ∧ (split_parts (feeder_cnt mixed) mixed).1 !! 1 = Some mixed_second
  ∧ PART_CMB mixed_second ∉ PART_CMB <$> (split_parts (feeder_cnt mixed) mixed).2.
Proof.
  split; [by vm_compute|].
  apply (split_ignores_rank mixed_bom 1 mixed_second). by vm_compute.
Defined.

(** C6, the claim as stated fails: a BOM with a single placement gives
    [cnt = 1], the quantity 1 is above [cnt/2], and the part is split into
    the quantities 0 and 1. *)
Lemma split_floor_half_zero :
  feeder_cnt single = 1
  ∧ single = [single_part]
  ∧ over_half (PART_QTY single_part) (feeder_cnt single) = true
  ∧ split_parts (feeder_cnt single) single
    = ([set_PART_QTY single_part 0], [set_PART_QTY single_part 1])
  ∧ ¬ (1 ≤ PART_QTY (set_PART_QTY single_part 0))%Z.
Proof. split_and!; by vm_compute. Qed.

Lemma split_quantities_witness :
  mixed !! 0 = Some mixed_first
  ∧ over_half (PART_QTY mixed_first) (feeder_cnt mixed) = true
  ∧ (split_parts (feeder_cnt mixed) mixed).1 !! 0 = Some (set_PART_QTY mixed_first 1)
  ∧ set_PART_QTY mixed_first 2 ∈ (split_parts (feeder_cnt mixed) mixed).2
  ∧ count_key PART_CMB "v0|0402" (add_adders (feeder_cnt mixed) mixed) = 2.
Proof.
  split; [by vm_compute|]. split; [by vm_compute|].
  destruct (split_quantities mixed_bom 0 mixed_first) as (H1 & H2 & H3 & _);
    [by vm_compute..|].
  split_and!; [exact H1|exact H2|exact H3].
Defined.

(** Three entries with one typeKey are rotated by every pass, which
    returns [True]. *)
Lemma optimize_part_list_three_alike {A} (cmb : A → string) (a b c : A) :
  cmb a = cmb b → cmb b = cmb c →
  optimize_part_list cmb [a; b; c] 3 = ([c; a; b], Returned true).
Proof.
  intros Hab Hbc. unfold optimize_part_list. simpl.
  rewrite Hab, Hbc, String.eqb_refl. done.
Qed.

Lemma optimize_while_three_alike {A} (cmb : A → string) (fuel : nat) (a b c : A)
    (printed : nat) :
  cmb a = cmb b → cmb b = cmb c →
  optimize_while cmb fuel [a; b; c] 3 printed = None.
Proof.
  revert a b c printed. induction fuel as [|fuel IH]; intros a b c printed Hab Hbc; [done|].
  simpl. rewrite (optimize_part_list_three_alike cmb a b c Hab Hbc).
  apply IH; congruence.
Qed.

(** C3, the claim as stated fails: on three feeders with the same part
    no budget is enough, so the loop of the source runs forever. *)
Lemma optimize_while_runs_forever :
  ¬ ∃ fuel res, optimize_while entry_cmb fuel three_alike 3 0 = Some res.
Proof.
  intros (fuel & res & H).
  unfold three_alike in H. by rewrite optimize_while_three_alike in H.
Qed.

Lemma optimize_while_terminates_witness :
  at_most_twice entry_cmb collided
  ∧ ∃ l' r n,
      (∀ fuel, collisions entry_cmb collided < fuel →
               optimize_while entry_cmb fuel collided 4 0 = Some (l', r, n))
      ∧ match r with
        | Returned _ => collisions entry_cmb (take 4 l') = 0
        | Raised e => e = IndexError
        end.
Proof.
  assert (at_most_twice entry_cmb collided) as H
    by (apply at_most_twiceb_correct; by vm_compute).
  split; [exact H|]. exact (optimize_while_terminates entry_cmb collided 4 H).
Defined.

Lemma optimize_fixpoint_no_adjacent_witness :
  optimize_part_list entry_cmb settled 4 = (settled, Returned false)
  ∧ optimize_while entry_cmb 2 collided 4 0 = Some (settled, Returned tt, 1)
  ∧ collisions entry_cmb (take 4 settled) = 0.
Proof.
  split; [by vm_compute|]. split; [by vm_compute|].
  apply (proj2 (optimize_fixpoint_no_adjacent entry_cmb collided 4) 2 settled 1).
  by vm_compute.
Defined.

(** C9, the claim as stated fails: with two good lines and then a line of
    three tokens the handler prints its two lines, the parts list and the
    feeder list are written from the two records read, and [main] returns,
    so the exit status is 0. *)
Lemma malformed_record_goes_on :
  main (λ v, v) 39 sample_argv sample_parsed (one_file "bom.txt" broken_file)
  = Some (mkWorld
            ["BOM Manager utility V0.2";
             "(C) 2019-2022 Invector Embedded Systems AB, Written by Pontus Oldberg";
             "Could not open file bom.txt"; "list index out of range";
             "Generating a list of used parts (Inventory picking list) !";
             "Generating feeder list !"]
            [("parts.csv",
              [[CStr "Part"; CStr "Description"; CStr "Package"; CStr "Count"];
               [CInt 1; CStr "10k"; CStr "0402"; CInt 2]]);
             ("feeders.csv",
              [[CStr "Feeder"; CStr "Description"; CStr "Package"; CStr "Count"];
               [CInt 20; CStr "10k"; CStr "0402"; CInt 1]])],
          Finished)
  ∧ exit_status Finished = 0%Z.
Proof. split; by vm_compute. Qed.

Lemma read_failure_not_fatal_witness :
  let fs := one_file "bom.txt" broken_file in
  let v := (read_lines (bom_lines "R" "10k" "0402" 2) []).1 in
  sample_argv !! 1 = Some "bom.txt"
  ∧ read_failure fs "bom.txt" v IndexError
  ∧ main (λ v, v) 39 sample_argv sample_parsed fs
    = generate (λ v, v) 39 sample_parsed v (report IndexError "bom.txt" banner)
  ∧ (∀ fs' lines, fs' "bom.txt" = Returned lines →
       read_lines lines [] = (v, Returned tt) →
       same_result (main (λ v, v) 39 sample_argv sample_parsed fs)
                   (main (λ v, v) 39 sample_argv sample_parsed fs')).
Proof.
  intros fs v.
  assert (read_failure fs "bom.txt" v IndexError) as Hfail.
  { apply (malformed_record fs "bom.txt" (bom_lines "R" "10k" "0402" 2) "C1 3.0 4.0
" (bom_lines "U" "lm358" "so8" 1)); [by vm_compute..|vm_compute; lia]. }
  split; [reflexivity|]. split; [exact Hfail|].
  exact (read_failure_not_fatal (λ v, v) 39 sample_argv sample_parsed fs "bom.txt" v
           IndexError eq_refl Hfail).
Defined.

(** * More on [create_component_list] *)

Lemma create_component_list_snoc (bomlist : list bom_row) (r : bom_row) :
  create_component_list (bomlist ++ [r]) = count_step (create_component_list bomlist) r.
Proof. unfold create_component_list. by rewrite fold_left_app. Qed.

(** Without repeated keys the inner loop touches the one entry with the
    key of the record, if there is one. *)
Lemma count_part_NoDup (r : bom_row) (cp : list part) :
  NoDup (PART_CMB <$> cp) →
  (count_part r cp).2
  = (λ c, if String.eqb (PART_CMB c) (BOM_CMB r)
          then set_PART_QTY c (PART_QTY c + 1) else c) <$> cp.
Proof.
  induction cp as [|c cp IH]; csimpl; [done|]. intros [Hnin Hnd]%NoDup_cons.
  destruct (String.eqb_spec (PART_CMB c) (BOM_CMB r)) as [Heq|Hne].
  - simpl. f_equal. rewrite <- (list_fmap_id cp) at 1. apply list_fmap_ext.
    intros i c' Hc'. destruct (String.eqb_spec (PART_CMB c') (BOM_CMB r)); [|done].
    exfalso. apply Hnin. rewrite Heq. apply list_elem_of_fmap. exists c'.
    split; [done|]. by eapply list_elem_of_lookup_2.
  - specialize (IH Hnd). destruct (count_part r cp) as [flag rest]. simpl in *.
    by rewrite IH.
Qed.

Lemma filter_length_snoc (k : string) (bomlist : list bom_row) (r : bom_row) :
  length (filter (λ r, BOM_CMB r = k) (bomlist ++ [r]))
  = length (filter (λ r, BOM_CMB r = k) bomlist)
    + (if decide (BOM_CMB r = k) then 1 else 0).
Proof.
  rewrite filter_app, length_app. f_equal.
  rewrite filter_cons. by case_decide.
Qed.

Lemma counts_records_other (bomlist : list bom_row) (r : bom_row) (p : part) :
  counts_records bomlist p → PART_CMB p ≠ BOM_CMB r →
  counts_records (bomlist ++ [r]) p.
Proof.
  intros [Hq (pre & r0 & post & -> & Hpre & Hnew)] Hne. split.
  - rewrite filter_length_snoc, decide_False by done. rewrite Hq. lia.
  - exists pre, r0, (post ++ [r]). by rewrite <- app_assoc.
Qed.

Lemma counts_records_same (bomlist : list bom_row) (r : bom_row) (p : part) :
  counts_records bomlist p → PART_CMB p = BOM_CMB r →
  counts_records (bomlist ++ [r]) (set_PART_QTY p (PART_QTY p + 1)).
Proof.
  intros [Hq (pre & r0 & post & -> & Hpre & Hnew)] Heq. split.
  - simpl. rewrite filter_length_snoc, decide_True by done. rewrite Hq. lia.
  - exists pre, r0, (post ++ [r]). by rewrite <- app_assoc.
Qed.

Lemma filter_length_absent (k : string) (bomlist : list bom_row) :
  k ∉ BOM_CMB <$> bomlist → length (filter (λ r, BOM_CMB r = k) bomlist) = 0.
Proof.
  induction bomlist as [|r bomlist IH]; csimpl; [done|].
  rewrite not_elem_of_cons. intros [Hne Hnin].
  rewrite filter_cons_False by done. by apply IH.
Qed.

Lemma counts_records_new (bomlist : list bom_row) (r : bom_row) :
  BOM_CMB r ∉ BOM_CMB <$> bomlist →
  counts_records (bomlist ++ [r]) (new_item r).
Proof.
  intros Hnin. split.
  - simpl. rewrite filter_length_snoc, decide_True by done.
    by rewrite filter_length_absent.
  - exists bomlist, r, []. done.
Qed.

Lemma create_component_list_counts (bomlist : list bom_row) (p : part) :
  p ∈ create_component_list bomlist → counts_records bomlist p.
Proof.
  revert p. induction bomlist as [|r bomlist IH] using rev_ind; intros p.
  - intros Hp. by apply elem_of_nil in Hp.
  - rewrite create_component_list_snoc. unfold count_step.
    pose proof (create_component_list_NoDup bomlist) as Hnd.
    pose proof (count_part_NoDup r _ Hnd) as Hmap.
    destruct (count_part_spec r (create_component_list bomlist)) as (_ & Hflag & _).
    destruct (count_part r (create_component_list bomlist)) as [flag cp'].
    simpl in *. subst cp'.
    assert (∀ q, q ∈ (λ c, if String.eqb (PART_CMB c) (BOM_CMB r)
                           then set_PART_QTY c (PART_QTY c + 1) else c)
                     <$> create_component_list bomlist →
                 counts_records (bomlist ++ [r]) q) as Hold.
    { intros q (c & -> & Hc)%list_elem_of_fmap.
      destruct (String.eqb_spec (PART_CMB c) (BOM_CMB r)).
      - by apply counts_records_same; [apply IH|].
      - by apply counts_records_other; [apply IH|]. }
    destruct flag; [|apply Hold].
    rewrite elem_of_app, list_elem_of_singleton. intros [Hp| ->]; [by apply Hold|].
    apply counts_records_new.
    rewrite <- (elem_of_first_occurrences _ (BOM_CMB <$> bomlist)).
    rewrite <- create_component_list_keys. by apply Hflag.
Qed.

(** Every entry of the parts list counts the records with its typeKey and
    carries the designator and position of the first of them; a typeKey
    of the BOM has an entry. *)
Theorem create_component_list_entries (bomlist : list bom_row) (p : part) :
  p ∈ create_component_list bomlist →
  PART_QTY p = Z.of_nat (length (filter (λ r, BOM_CMB r = PART_CMB p) bomlist))
  ∧ ∃ pre r post, bomlist = pre ++ r :: post
                  ∧ (PART_CMB p ∉ BOM_CMB <$> pre)
                  ∧ BOM_CMB r = PART_CMB p
                  ∧ BOM_DES r = PART_DES p ∧ BOM_X r = PART_X p
                  ∧ BOM_Y r = PART_Y p ∧ BOM_A r = PART_A p.
Proof.
  intros Hp. apply create_component_list_counts in Hp as [Hq (pre & r & post & Hl & Hpre & Hnew)].
  split; [done|]. exists pre, r, post.
  unfold new_item, set_PART_QTY in Hnew. by simplify_eq.
Qed.

Lemma create_component_list_entries_witness :
  mixed_first ∈ create_component_list mixed_bom
  ∧ PART_QTY mixed_first
    = Z.of_nat (length (filter (λ r, BOM_CMB r = PART_CMB mixed_first) mixed_bom)).
Proof.
  assert (mixed_first ∈ create_component_list mixed_bom) as H
    by (apply (list_elem_of_lookup_2 _ 0); by vm_compute).
  split; [exact H|]. exact (proj1 (create_component_list_entries mixed_bom mixed_first H)).
Defined.

(** * More on [optimize_part_list] *)

Lemma exchange_up_returns {A} (l : list A) (i : nat) :
  i + 2 < length l →
  ∃ l', exchange_up l i = Returned l' ∧ length l' = length l.
Proof.
  intros H. unfold exchange_up.
  destruct (lookup_lt_is_Some_2 l (i + 2)) as [x ->]; [lia|].
  destruct (lookup_lt_is_Some_2 l (i + 1)) as [y ->]; [lia|].
  eexists. split; [done|]. by rewrite !length_insert.
Qed.

Lemma exchange_down_returns {A} (l : list A) (i : nat) :
  i < length l →
  ∃ l', exchange_down l i = Returned l' ∧ length l' = length l.
Proof.
  intros H. unfold exchange_down.
  destruct (lookup_lt_is_Some_2 l (i - 1)) as [x ->]; [lia|].
  destruct (lookup_lt_is_Some_2 l i) as [y ->]; [lia|].
  eexists. split; [done|]. by rewrite !length_insert.
Qed.

Lemma exchange_at_returns {A} (l : list A) (i cnt : nat) :
  exchanges_fit cnt = true → cnt ≤ length l → i + 1 < cnt →
  ∃ l', exchange_at l i = Returned l' ∧ length l' = length l.
Proof.
  unfold exchanges_fit, exchange_at. intros Hfit Hlen Hi.
  destruct (Nat.leb_spec i 17); [destruct (Nat.eqb_spec i 0)|destruct (Nat.eqb_spec i 36)].
  - apply exchange_up_returns.
    destruct (Nat.leb_spec cnt 1), (Nat.leb_spec 3 cnt), (Nat.leb_spec cnt 19),
      (Nat.eqb_spec cnt 38); simpl in Hfit; try done; lia.
  - apply exchange_down_returns. lia.
  - apply exchange_down_returns. lia.
  - apply exchange_up_returns.
    destruct (Nat.leb_spec cnt 1), (Nat.leb_spec 3 cnt), (Nat.leb_spec cnt 19),
      (Nat.eqb_spec cnt 38); simpl in Hfit; try done; lia.
Qed.

Section OptimizerBounds.
Context {A : Type} (cmb : A → string).

Lemma optimize_from_returns (indices : list nat) (l : list A) (updated : bool) (cnt : nat) :
  exchanges_fit cnt = true → cnt ≤ length l →
  (∀ i, i ∈ indices → i + 1 < cnt) →
  ∃ l' b, optimize_from cmb indices l updated = (l', Returned b)
          ∧ length l' = length l.
Proof.
  intros Hfit. revert l updated.
  induction indices as [|i indices IH]; intros l updated Hlen Hind; simpl.
  - by exists l, updated.
  - assert (i + 1 < cnt) as Hi by (apply Hind; left).
    assert (∀ j, j ∈ indices → j + 1 < cnt) as Hind' by (intros j Hj; apply Hind; by right).
    destruct (lookup_lt_is_Some_2 l i) as [x ->]; [lia|].
    destruct (lookup_lt_is_Some_2 l (i + 1)) as [y ->]; [lia|].
    destruct (String.eqb (cmb x) (cmb y)); [|by apply IH].
    destruct (exchange_at_returns l i cnt Hfit Hlen Hi) as (l1 & -> & Hl1).
    destruct (IH l1 true) as (l' & b & ? & ?); [lia|done|].
    exists l', b. split; [done|lia].
Qed.

Lemma optimize_part_list_returns (l : list A) (cnt : nat) :
  exchanges_fit cnt = true → cnt ≤ length l →
  ∃ l' b, optimize_part_list cmb l cnt = (l', Returned b) ∧ length l' = length l.
Proof.
  intros Hfit Hlen. apply (optimize_from_returns _ _ _ cnt); [done..|].
  intros i Hi%elem_of_seq. lia.
Qed.

Lemma optimize_while_returns (fuel : nat) (l l' : list A) (cnt printed n : nat)
    (r : outcome unit) :
  exchanges_fit cnt = true → cnt ≤ length l →
  optimize_while cmb fuel l cnt printed = Some (l', r, n) →
  r = Returned tt ∧ length l' = length l.
Proof.
  intros Hfit. revert l printed.
  induction fuel as [|fuel IH]; intros l printed Hlen; simpl; [done|].
  destruct (optimize_part_list_returns l cnt Hfit Hlen) as (l1 & b & -> & Hl1).
  destruct b.
  - intros H. apply IH in H as [? ?]; [|lia]. split; [done|lia].
  - intros [= <- <- <-]. done.
Qed.

(** For [cnt] up to 1, from 3 to 19, or 38, on a list of at least [cnt]
    rows: a pass reads and writes inside the list, so it returns and never
    raises [IndexError]; the list keeps its length; and if no typeKey is
    there more than twice the [while] loop ends normally, with no two
    neighbours among the first [cnt] rows sharing a typeKey. *)
Theorem optimize_part_list_in_range (l : list A) (cnt : nat) :
  exchanges_fit cnt = true → cnt ≤ length l →
  (∃ l' b, optimize_part_list cmb l cnt = (l', Returned b) ∧ length l' = length l)
  ∧ (at_most_twice cmb l →
     ∃ l' n, (∀ fuel, collisions cmb l < fuel →
                      optimize_while cmb fuel l cnt 0 = Some (l', Returned tt, n))
             ∧ length l' = length l
             ∧ collisions cmb (take cnt l') = 0).
Proof.
  intros Hfit Hlen. split; [by apply optimize_part_list_returns|].
  intros Htwice.
  destruct (optimize_while_enough cmb (collisions cmb l) l cnt 0 Htwice)
    as [[[l' r] n] Hres]; [done|].
  pose proof (Hres (S (collisions cmb l)) ltac:(lia)) as Hrun.
  destruct (optimize_while_returns _ _ _ _ _ _ _ Hfit Hlen Hrun) as [-> Hl'].
  exists l', n. split_and!; [done..|].
  apply optimize_while_last_pass in Hrun.
  by apply optimize_part_list_unchanged in Hrun as [_ ?].
Qed.

Lemma collisions_lookup (l : list A) (i : nat) (x y : A) :
  collisions cmb l = 0 → l !! i = Some x → l !! S i = Some y → cmb x ≠ cmb y.
Proof.
  revert i. induction l as [|a l IH]; intros i Hzero Hx Hy; [done|].
  destruct l as [|b l]; [by destruct i|].
  rewrite collisions_cons_cons in Hzero.
  destruct i as [|i]; simplify_eq/=.
  - destruct (String.eqb_spec (cmb x) (cmb y)); [lia|done].
  - apply (IH i); [lia|done..].
Qed.

Lemma optimize_from_settled (indices : list nat) (l : list A) (updated : bool) :
  (∀ i, i ∈ indices → ∃ x y, l !! i = Some x ∧ l !! (i + 1) = Some y ∧ cmb x ≠ cmb y) →
  optimize_from cmb indices l updated = (l, Returned updated).
Proof.
  induction indices as [|i indices IH]; intros H; simpl; [done|].
  destruct (H i) as (x & y & -> & -> & Hne); [left|].
  apply String.eqb_neq in Hne. rewrite Hne. apply IH.
  intros j Hj. apply H. by right.
Qed.

Lemma optimize_part_list_no_collision (l : list A) (cnt : nat) :
  cnt ≤ length l → collisions cmb (take cnt l) = 0 →
  optimize_part_list cmb l cnt = (l, Returned false).
Proof.
  intros Hlen Hzero. apply optimize_from_settled. intros i Hi%elem_of_seq.
  destruct (lookup_lt_is_Some_2 l i) as [x Hx]; [lia|].
  destruct (lookup_lt_is_Some_2 l (i + 1)) as [y Hy]; [lia|].
  exists x, y. split_and!; [done..|].
  apply (collisions_lookup (take cnt l) i); [done|..].
  - rewrite lookup_take_lt by lia. done.
  - rewrite lookup_take_lt by lia. by replace (S i) with (i + 1) by lia.
Qed.

(** A list of at least [cnt] rows whose first [cnt] rows hold no two
    neighbours with the same typeKey is a fixpoint: a pass returns [False]
    and leaves it as it is, and the [while] loop ends after this one pass
    without printing, whatever [cnt] is. *)
Theorem optimize_part_list_settled (l : list A) (cnt fuel : nat) :
  cnt ≤ length l → collisions cmb (take cnt l) = 0 →
  optimize_part_list cmb l cnt = (l, Returned false)
  ∧ optimize_while cmb (S fuel) l cnt 0 = Some (l, Returned tt, 0).
Proof.
  intros Hlen Hzero.
  pose proof (optimize_part_list_no_collision l cnt Hlen Hzero) as Hpass.
  split; [done|]. simpl. by rewrite Hpass.
Qed.
End OptimizerBounds.

(** * The typeKey and its two halves *)

Lemma append_String (c : ascii) (s t : string) : String c s +:+ t = String c (s +:+ t).
Proof. done. Qed.

Lemma append_empty_r (s : string) : s +:+ "" = s.
Proof. induction s as [|c s IH]; [done|]. by rewrite append_String, IH. Qed.

Lemma append_assoc (s t u : string) : (s +:+ t) +:+ u = s +:+ (t +:+ u).
Proof. induction s as [|c s IH]; [done|]. by rewrite !append_String, IH. Qed.

Lemma split_on_from_absent (sep : ascii) (cur s : string) :
  contains sep s = false → split_on_from sep cur s = [cur +:+ s].
Proof.
  revert cur. induction s as [|c s IH]; intros cur; simpl.
  - by rewrite append_empty_r.
  - intros [Hc Hs]%orb_false_elim. rewrite Hc, IH by done.
    by rewrite append_assoc.
Qed.

Lemma split_on_from_first (sep : ascii) (cur s1 s2 : string) :
  contains sep s1 = false →
  split_on_from sep cur (s1 +:+ String sep s2) = (cur +:+ s1) :: split_on_from sep "" s2.
Proof.
  revert cur. induction s1 as [|c s1 IH]; intros cur.
  - intros _. change ("" +:+ String sep s2) with (String sep s2). simpl.
    by rewrite Ascii.eqb_refl, append_empty_r.
  - intros [Hc Hs]%orb_false_elim. rewrite append_String. simpl.
    rewrite Hc, IH by done. by rewrite append_assoc.
Qed.




Lemma split_cmb_round_trip (val pac : string) :
  contains "|" val = false → contains "|" pac = false →
  split_cmb (val +:+ "|" +:+ pac) = Returned (val, pac).
Proof.
  intros Hval Hpac. unfold split_cmb, split_bar.
  change ("|" +:+ pac) with (String "|" pac).
  rewrite split_on_from_first by done. by rewrite split_on_from_absent.
Qed.

Lemma parse_line_returns (line : string) (r : bom_row) :
  parse_line line = Returned r →
  ∃ des x y a val pac rest,
    split_whitespace (replace_comma line) = des :: x :: y :: a :: val :: pac :: rest
    ∧ r = mkBom des x y a (val +:+ "|" +:+ pac).
Proof.
  unfold parse_line.
  destruct (split_whitespace (replace_comma line)) as [|des [|x [|y [|a [|val [|pac rest]]]]]];
    simpl; try done.
  intros [= <-]. by eexists _, _, _, _, _, _, _.
Qed.

Lemma parse_line_long (line : string) :
  6 ≤ length (split_whitespace (replace_comma line)) →
  ∃ des x y a val pac rest,
    split_whitespace (replace_comma line) = des :: x :: y :: a :: val :: pac :: rest
    ∧ parse_line line = Returned (mkBom des x y a (val +:+ "|" +:+ pac)).
Proof.
  unfold parse_line.
  destruct (split_whitespace (replace_comma line)) as [|des [|x [|y [|a [|val [|pac rest]]]]]];
    simpl; try lia.
  intros _. by eexists _, _, _, _, _, _, _.
Qed.

(** The row the placement file gets for a line is the line's first six
    tokens, commas turned into points, when the value and the package
    hold no [|]: the typeKey is put together on reading and taken apart
    on writing without loss. *)
Theorem placement_row_round_trip (line : string) (n : nat) :
  let ml := split_whitespace (replace_comma line) in
  6 ≤ length ml →
  (∀ tok, ml !! 4 = Some tok ∨ ml !! 5 = Some tok → contains "|" tok = false) →
  ∃ r, parse_line line = Returned r
       ∧ bom_line n r = Returned (CStr <$> take 6 ml).
Proof.
  intros ml Hlen Hbar.
  destruct (parse_line_long line Hlen) as (des & x & y & a & val & pac & rest & Hml & Hparse).
  fold ml in Hml. exists (mkBom des x y a (val +:+ "|" +:+ pac)). split; [done|].
  unfold bom_line. simpl. rewrite split_cmb_round_trip.
  - by rewrite Hml.
  - apply Hbar. left. by rewrite Hml.
  - apply Hbar. right. by rewrite Hml.
Qed.

Lemma placement_row_round_trip_witness :
  6 ≤ length (split_whitespace (replace_comma comma_line))
  ∧ ∃ r, parse_line comma_line = Returned r
         ∧ bom_line 0 r
           = Returned (CStr <$> take 6 (split_whitespace (replace_comma comma_line))).
Proof.
  assert (6 ≤ length (split_whitespace (replace_comma comma_line))) as Hlen
    by (vm_compute; lia).
  split; [exact Hlen|].
  apply (placement_row_round_trip comma_line 0 Hlen).
  intros tok [H|H]; vm_compute in H; by simplify_eq.
Defined.

(** * Runs of [main] that end normally *)












(** * Order of the feeder list *)

(** The insertion keeps a sorted list sorted, for any comparison that is
    asymmetric and whose negation is transitive. *)
Section Sorted.
Context {A : Type} (lt : A → A → bool).
Hypothesis lt_asym : ∀ a b, lt a b = true → lt b a = false.
Hypothesis le_trans : ∀ a b c, lt b a = false → lt c b = false → lt c a = false.

Lemma insert_sorted_StronglySorted (x : A) (l : list A) :
  StronglySorted (λ a b, lt b a = false) l →
  StronglySorted (λ a b, lt b a = false) (insert_sorted lt x l).
Proof.
  induction l as [|y l IH]; simpl; intros Hl.
  - by repeat constructor.
  - apply StronglySorted_cons in Hl as [Hy Hl].
    destruct (lt y x) eqn:E.
    + apply StronglySorted_cons. split; [|by apply IH].
      rewrite insert_sorted_Permutation. constructor; [by apply lt_asym|done].
    + apply StronglySorted_cons. split; [|by apply StronglySorted_cons].
      constructor; [done|]. eapply Forall_impl; [done|]. intros z Hz. by eapply le_trans.
Qed.

Lemma py_sorted_StronglySorted (l : list A) :
  StronglySorted (λ a b, lt b a = false) (py_sorted lt l).
Proof.
  induction l as [|x l IH]; simpl; [constructor|].
  by apply insert_sorted_StronglySorted.
Qed.
End Sorted.

Lemma StronglySorted_weaken {A} (R R' : A → A → Prop) (l : list A) :
  (∀ a b, R a b → R' a b) → StronglySorted R l → StronglySorted R' l.
Proof.
  intros HR. induction 1 as [|a l Hl IH Ha]; constructor; [done|].
  eapply Forall_impl; [done|]. auto.
Qed.

Lemma StronglySorted_strict {A} (f : A → nat) (l : list A) :
  NoDup (f <$> l) → StronglySorted (λ a b, f a ≤ f b) l →
  StronglySorted (λ a b, f a < f b) l.
Proof.
  induction l as [|a l IH]; csimpl; [constructor|].
  intros [Hnin Hnd]%NoDup_cons [Ha Hl]%StronglySorted_cons.
  constructor; [by apply IH|]. apply Forall_forall. intros b Hb.
  rewrite Forall_forall in Ha. specialize (Ha b Hb).
  assert (f a ≠ f b); [|lia]. intros Heq. apply Hnin. rewrite Heq.
  by apply list_elem_of_fmap_2.
Qed.

Lemma sorted_by_fdr_sorted (fl : list feeder_part) :
  StronglySorted (λ a b, PART_FDR a ≤ PART_FDR b) (sorted_by_fdr fl).
Proof.
  eapply StronglySorted_weaken; [|apply py_sorted_StronglySorted].
  - intros a b H. simpl in H. apply Nat.ltb_ge in H. done.
  - intros a b H%Nat.ltb_lt. apply Nat.ltb_ge. lia.
  - intros a b c H1%Nat.ltb_ge H2%Nat.ltb_ge. apply Nat.ltb_ge. lia.
Qed.

Lemma sorted_by_qty_rev_sorted (col : list part) :
  StronglySorted (λ a b, (PART_QTY b ≤ PART_QTY a)%Z) (sorted_by_qty_rev col).
Proof.
  eapply StronglySorted_weaken; [|apply py_sorted_StronglySorted].
  - intros a b H. simpl in H. apply Z.ltb_ge in H. done.
  - intros a b H%Z.ltb_lt. apply Z.ltb_ge. lia.
  - intros a b c H1%Z.ltb_ge H2%Z.ltb_ge. apply Z.ltb_ge. lia.
Qed.

(** The list handed to the optimiser is in strictly ascending feeder
    order, and it stays so when the first pass of the optimiser finds no
    two neighbours with the same typeKey. *)
Theorem feeder_table_ascending (v : list bom_row) :
  ∃ fls, feeder_table v = (feeder_cnt (create_component_list v), Returned fls)
    ∧ StronglySorted (λ a b, PART_FDR a < PART_FDR b) fls
    ∧ (collisions entry_cmb fls = 0 →
       ∀ fuel, optimize_while entry_cmb (S fuel) fls
                 (feeder_cnt (create_component_list v)) 0
               = Some (fls, Returned tt, 0)).
Proof.
  destruct (feeder_table_spec v) as (_ & Ht & _ & Hslots & Hlen).
  set (cnt := feeder_cnt (create_component_list v)) in *.
  set (fl := zip_with mkFeeder _ _) in *.
  assert (length (sorted_by_fdr fl) = cnt) as Hlen'
    by (unfold sorted_by_fdr; by rewrite py_sorted_length).
  exists (sorted_by_fdr fl). split; [exact Ht|]. split.
  - apply StronglySorted_strict; [|apply sorted_by_fdr_sorted].
    unfold sorted_by_fdr. rewrite py_sorted_Permutation, Hslots.
    eapply sublist_NoDup; [|apply sublist_take].
    rewrite l1_ptrn_Permutation. apply NoDup_seq.
  - intros Hzero fuel. simpl.
    rewrite optimize_part_list_no_collision; [done|lia|].
    by rewrite take_ge by lia.
Qed.

(** The ranked list has one entry per part type and one more per split
    part, in order of falling quantity; the feeder list takes its first
    [cnt] entries, so the entries left without a feeder are as many as
    the list is longer than [cnt], and none of them has a larger quantity
    than an entry that got a feeder. *)
Theorem distribution_ranked (v : list bom_row) :
  let col := create_component_list v in
  let cnt := feeder_cnt col in
  let cl := sorted_by_qty_rev (add_adders cnt col) in
  ∃ fl, distribute cl cnt = Returned fl
    ∧ fp_part <$> fl = take cnt cl
    ∧ length cl
      = length col + length (filter (λ p, over_half (PART_QTY p) cnt = true) col)
    ∧ StronglySorted (λ a b, (PART_QTY b ≤ PART_QTY a)%Z) cl
    ∧ (∀ (e : feeder_part) (p : part),
         e ∈ fl → p ∈ drop cnt cl → (PART_QTY p ≤ PART_QTY e)%Z).
Proof.
  intros col cnt cl.
  destruct (feeder_table_spec v) as (Hd & _ & Hparts & _).
  fold col cnt cl in Hd, Hparts.
  pose proof (sorted_by_qty_rev_sorted (add_adders cnt col)) as Hsorted. fold cl in Hsorted.
  exists (zip_with mkFeeder (take cnt cl) (take cnt l1_ptrn)).
  split; [exact Hd|]. split_and!; [done| |done|].
  - unfold cl, sorted_by_qty_rev.
    rewrite py_sorted_length, add_adders_eq, length_app.
    by rewrite split_parts_fst, split_parts_snd, !length_fmap.
  - intros e p He Hp. apply (list_elem_of_fmap_2 fp_part) in He. rewrite Hparts in He.
    rewrite <- (take_drop cnt cl) in Hsorted.
    apply (StronglySorted_app_1_elem_of _ _ _ _ _ Hsorted He Hp).
Qed.

(** * Splitting keeps the total *)

Lemma split_parts_total (cnt : nat) (col : list part) :
  (total_qty (split_parts cnt col).1 + total_qty (split_parts cnt col).2
   = total_qty col)%Z.
Proof.
  induction col as [|p col IH]; [done|]. simpl.
  unfold split_step. destruct (over_half (PART_QTY p) cnt);
    destruct (split_parts cnt col) as [col' adders]; simpl in *; lia.
Qed.

(** Splitting moves quantity from an entry to its duplicate and changes
    nothing else: the quantities of the list with the adders appended sum
    to what they summed to before, for a parts list built from a BOM the
    number of its records; and the list at most doubles in length. *)
Theorem add_adders_total (cnt : nat) (col : list part) (v : list bom_row) :
  total_qty (add_adders cnt col) = total_qty col
  ∧ total_qty (add_adders cnt (create_component_list v)) = Z.of_nat (length v)
  ∧ length col ≤ length (add_adders cnt col) ≤ 2 * length col.
Proof.
  assert (∀ col, total_qty (add_adders cnt col) = total_qty col) as Htotal.
  { intros col'. rewrite add_adders_eq, total_qty_app. apply split_parts_total. }
  split_and!.
  - apply Htotal.
  - rewrite Htotal. unfold create_component_list. rewrite fold_count_step_total.
    simpl. lia.
  - apply add_adders_length.
  - rewrite add_adders_eq, length_app, split_parts_fst, split_parts_snd, !length_fmap.
    pose proof (length_filter (λ p, over_half (PART_QTY p) cnt = true) col). lia.
Qed.

(** * What reading leaves in the main BOM *)

Lemma all_chars_append (ok : ascii → bool) (s t : string) :
  all_chars ok (s +:+ t) = all_chars ok s && all_chars ok t.
Proof.
  induction s as [|c s IH]; [done|].
  rewrite append_String. simpl. rewrite IH. by rewrite andb_assoc.
Qed.

Lemma replace_comma_spaced (s : string) :
  all_chars (λ c, isspace c || plain c) (replace_comma s) = true.
Proof.
  induction s as [|c s IH]; [done|]. simpl. rewrite IH, andb_true_r.
  destruct (Ascii.eqb c ",") eqn:E; [done|].
  unfold plain. rewrite E. simpl. by destruct (isspace c).
Qed.

Lemma append_not_empty (s : string) (c : ascii) : s +:+ String c "" ≠ "".
Proof. by destruct s. Qed.

(** The tokens are not empty and made of the characters between the
    white space. *)
Lemma split_from_plain (cur s tok : string) :
  all_chars plain cur = true →
  all_chars (λ c, isspace c || plain c) s = true →
  tok ∈ split_from cur s → plain_field tok = true.
Proof.
  revert cur. induction s as [|c s IH]; intros cur Hcur Hs; simpl.
  - destruct (String.eqb_spec cur ""); [by intros ?%elem_of_nil|].
    intros ->%list_elem_of_singleton. unfold plain_field.
    rewrite Hcur, andb_true_r. by apply negb_true_iff, String.eqb_neq.
  - simpl in Hs. apply andb_true_iff in Hs as [Hc Hs].
    destruct (isspace c) eqn:E.
    + destruct (String.eqb_spec cur ""); [by apply IH|].
      intros [->|Htok]%elem_of_cons; [|by apply (IH "")].
      unfold plain_field. rewrite Hcur, andb_true_r. by apply negb_true_iff, String.eqb_neq.
    + apply IH; [|done]. rewrite all_chars_append, Hcur. simpl in *. by rewrite Hc.
Qed.

Lemma parse_line_plain (line : string) (r : bom_row) :
  parse_line line = Returned r → plain_row r = true.
Proof.
  intros (des & x & y & a & val & pac & rest & Hml & ->)%parse_line_returns.
  assert (∀ tok, tok ∈ split_whitespace (replace_comma line) → plain_field tok = true)
    as Htok.
  { intros tok. apply split_from_plain; [done|apply replace_comma_spaced]. }
  rewrite Hml in Htok. unfold plain_row. simpl.
  rewrite !Htok by (repeat ((by left) || right)). simpl.
  pose proof (Htok val ltac:(repeat ((by left) || right))) as [Hv1 Hv2]%andb_true_iff.
  pose proof (Htok pac ltac:(repeat ((by left) || right))) as [Hp1 Hp2]%andb_true_iff.
  unfold plain_field. rewrite !all_chars_append, Hv2, Hp2. simpl.
  rewrite andb_true_r. apply negb_true_iff, String.eqb_neq.
  destruct val; [done|]. by rewrite append_String.
Qed.

Lemma read_lines_plain (lines : list string) (v : list bom_row) :
  Forall (λ r, plain_row r = true) v →
  Forall (λ r, plain_row r = true) (read_lines lines v).1.
Proof.
  revert v. induction lines as [|line lines IH]; intros v Hv; simpl; [done|].
  destruct (negb (skipped line)); [|by apply IH].
  destruct (parse_line line) as [nl|e] eqn:E; [|done].
  apply IH. apply Forall_app. split; [done|]. constructor; [|done].
  by eapply parse_line_plain.
Qed.

(** Whatever the file holds, every field of every record of the main
    BOM is non-empty and free of commas and white space: no field needs
    quoting in the comma-separated files written from it. *)
Theorem read_bom_plain (fs : string → outcome (list string)) (filename : string)
    (w : world) :
  Forall (λ r, plain_row r = true) (read_bom fs filename w).1.
Proof.
  unfold read_bom. destruct (fs filename) as [lines|e]; [|done].
  pose proof (read_lines_plain lines [] ltac:(constructor)) as H.
  by destruct (read_lines lines []) as [v [[]|e]].
Qed.

Lemma read_lines_kept_from (lines : list string) (v0 : list bom_row) :
  (∀ line, line ∈ lines → skipped line = false →
           6 ≤ length (split_whitespace (replace_comma line))) →
  ∃ v, read_lines lines v0 = (v0 ++ v, Returned tt)
       ∧ Returned <$> v = parse_line <$> filter (λ line, skipped line = false) lines.
Proof.
  revert v0. induction lines as [|line lines IH]; intros v0 H; simpl.
  - exists []. by rewrite app_nil_r.
  - assert (∀ l, l ∈ lines → skipped l = false →
                 6 ≤ length (split_whitespace (replace_comma l))) as H'
      by (intros l Hl; apply H; by right).
    destruct (skipped line) eqn:E; simpl.
    + rewrite filter_cons_False by congruence. by apply IH.
    + rewrite filter_cons_True by done.
      destruct (parse_line_long line) as (des & x & y & a & val & pac & rest & _ & Hp).
      { apply H; [left|done]. }
      rewrite Hp. destruct (IH (v0 ++ [mkBom des x y a (val +:+ "|" +:+ pac)]) H')
        as (v & -> & Hv).
      exists (mkBom des x y a (val +:+ "|" +:+ pac) :: v). split.
      * by rewrite <- app_assoc.
      * csimpl. by rewrite Hp, Hv.
Qed.

(** When every line that does not start with [TP] or [FID] has at least
    six tokens, the loop reads the whole file without an exception: the
    main BOM holds one record per such line, in the order of the file,
    and the lines starting with [TP] or [FID] leave no trace. *)
Theorem read_lines_kept (lines : list string) :
  (∀ line, line ∈ lines → skipped line = false →
           6 ≤ length (split_whitespace (replace_comma line))) →
  ∃ v, read_lines lines [] = (v, Returned tt)
       ∧ Returned <$> v = parse_line <$> filter (λ line, skipped line = false) lines
       ∧ length v = length (filter (λ line, skipped line = false) lines).
Proof.
  intros H. destruct (read_lines_kept_from lines [] H) as (v & Hv & Hrows).
  exists v. split_and!; [done..|].
  apply (f_equal length) in Hrows. by rewrite !length_fmap in Hrows.
Qed.

Lemma read_lines_kept_witness :
  (∀ line, line ∈ with_test_point → skipped line = false →
           6 ≤ length (split_whitespace (replace_comma line)))
  ∧ ∃ v, read_lines with_test_point [] = (v, Returned tt)
       ∧ Returned <$> v
         = parse_line <$> filter (λ line, skipped line = false) with_test_point
       ∧ length v = length (filter (λ line, skipped line = false) with_test_point).
Proof.
  assert (∀ line, line ∈ with_test_point → skipped line = false →
           6 ≤ length (split_whitespace (replace_comma line))) as H.
  { intros line Hin _. revert line Hin. apply Forall_forall.
    repeat (constructor; [vm_compute; lia|]). constructor. }
  split; [exact H|]. exact (read_lines_kept _ H).
Defined.

(** * When a pass of the optimiser raises *)

Section OptimizerRaises.
Context {A : Type} (cmb : A → string).

Lemma optimize_from_app (is1 is2 : list nat) (l : list A) (updated : bool) :
  optimize_from cmb (is1 ++ is2) l updated
  = match optimize_from cmb is1 l updated with
    | (l', Returned b) => optimize_from cmb is2 l' b
    | (l', Raised e) => (l', Raised e)
    end.
Proof.
  revert l updated. induction is1 as [|i is1 IH]; intros l updated; simpl; [done|].
  destruct (l !! i) as [x|]; [|done].
  destruct (l !! (i + 1)) as [y|]; [|done].
  destruct (String.eqb (cmb x) (cmb y)); [|apply IH].
  destruct (exchange_at l i) as [l1|e]; [apply IH|done].
Qed.

Lemma exchange_at_raises (l : list A) (cnt : nat) :
  length l = cnt → exchanges_fit cnt = false →
  exchange_at l (cnt - 2) = Raised IndexError.
Proof.
  unfold exchanges_fit. intros Hlen Hfit.
  assert (2 ≤ cnt ∧ (cnt < 3 ∨ 19 < cnt) ∧ cnt ≠ 38) as (H2 & H3 & H38).
  { destruct (Nat.leb_spec cnt 1), (Nat.leb_spec 3 cnt), (Nat.leb_spec cnt 19),
      (Nat.eqb_spec cnt 38); simpl in Hfit; try done; lia. }
  assert (l !! (cnt - 2 + 2) = None) as Hnone by (apply lookup_ge_None; lia).
  unfold exchange_at, exchange_up.
  destruct (Nat.leb_spec (cnt - 2) 17).
  - destruct (Nat.eqb_spec (cnt - 2) 0); [by rewrite Hnone|lia].
  - destruct (Nat.eqb_spec (cnt - 2) 36); [lia|by rewrite Hnone].
Qed.

(** On a list of exactly [cnt] rows, for [cnt] = 2, 20 to 37, or above
    38: when the last two rows share a typeKey and no two neighbours
    before them do, the pass reads one past the end of the list and
    raises [IndexError], the list unchanged. *)
Theorem optimize_part_list_last_pair (l : list A) (cnt : nat) (x y : A) :
  length l = cnt → exchanges_fit cnt = false →
  collisions cmb (take (cnt - 1) l) = 0 →
  l !! (cnt - 2) = Some x → l !! (cnt - 1) = Some y → cmb x = cmb y →
  optimize_part_list cmb l cnt = (l, Raised IndexError).
Proof.
  intros Hlen Hfit Hzero Hx Hy Hxy. unfold optimize_part_list.
  assert (2 ≤ cnt) as Hcnt.
  { unfold exchanges_fit in Hfit. destruct (Nat.leb_spec cnt 1); [done|lia]. }
  replace (cnt - 1) with (S (cnt - 2)) at 1 by lia.
  rewrite seq_S, optimize_from_app. simpl.
  rewrite optimize_from_settled.
  - simpl. replace (cnt - 2 + 1) with (cnt - 1) by lia.
    rewrite Hx, Hy, Hxy, String.eqb_refl.
    by rewrite (exchange_at_raises l cnt Hlen Hfit).
  - intros i Hi%elem_of_seq.
    destruct (lookup_lt_is_Some_2 l i) as [a Ha]; [lia|].
    destruct (lookup_lt_is_Some_2 l (i + 1)) as [b Hb]; [lia|].
    exists a, b. split_and!; [done..|].
    apply (collisions_lookup cmb (take (cnt - 1) l) i); [done|..].
    + rewrite lookup_take_lt by lia. done.
    + rewrite lookup_take_lt by lia. by replace (S i) with (i + 1) by lia.
Qed.
End OptimizerRaises.

Lemma optimize_part_list_last_pair_witness :
  length two_alike = 2 ∧ exchanges_fit 2 = false
  ∧ optimize_part_list entry_cmb two_alike 2 = (two_alike, Raised IndexError).
Proof.
  split; [reflexivity|]. split; [reflexivity|].
  apply (optimize_part_list_last_pair entry_cmb two_alike 2
           (sample_entry "10k|0402" 1 18) (sample_entry "10k|0402" 2 19));
    reflexivity.
Defined.

Lemma optimize_part_list_in_range_witness :
  exchanges_fit 4 = true ∧ 4 ≤ length collided
  ∧ (∃ l' b, optimize_part_list entry_cmb collided 4 = (l', Returned b)
             ∧ length l' = length collided)
  ∧ (at_most_twice entry_cmb collided →
     ∃ l' n, (∀ fuel, collisions entry_cmb collided < fuel →
                      optimize_while entry_cmb fuel collided 4 0
                      = Some (l', Returned tt, n))
             ∧ length l' = length collided
             ∧ collisions entry_cmb (take 4 l') = 0).
Proof.
  assert (4 ≤ length collided) as Hlen by (vm_compute; lia).
  split; [reflexivity|]. split; [exact Hlen|].
  exact (optimize_part_list_in_range entry_cmb collided 4 eq_refl Hlen).
Defined.

Lemma optimize_part_list_settled_witness :
  4 ≤ length settled ∧ collisions entry_cmb (take 4 settled) = 0
  ∧ optimize_part_list entry_cmb settled 4 = (settled, Returned false)
  ∧ optimize_while entry_cmb 1 settled 4 0 = Some (settled, Returned tt, 0).
Proof.
  assert (4 ≤ length settled) as Hlen by (vm_compute; lia).
  split; [exact Hlen|]. split; [reflexivity|].
  exact (optimize_part_list_settled entry_cmb settled 4 0 Hlen eq_refl).
Defined.

(** * What the inventory list and the feeder list hold *)



Lemma write_rows_length {A} (f : nat → A → outcome (list cell)) (start : nat)
    (l : list A) (rows : csv) :
  write_rows f start l = (rows, Returned tt) → length rows = length l.
Proof.
  revert start rows. induction l as [|a l IH]; intros start rows; simpl.
  - by intros [= <-].
  - destruct (f start a) as [r|e]; [|done].
    destruct (write_rows f (S start) l) as [rows' res] eqn:E.
    intros [= <- ->]. simpl. by rewrite (IH _ _ E).
Qed.




Lemma write_rows_feeder (start : nat) (fls : list feeder_part) (rows : csv) :
  write_rows feeder_line start fls = (rows, Returned tt) →
  column 0 rows = (λ e, Z.of_nat (PART_FDR e) + 1)%Z <$> fls.
Proof.
  revert start rows. induction fls as [|e fls IH]; intros start rows; simpl.
  - by intros [= <-].
  - unfold feeder_line at 1. destruct (split_cmb (PART_CMB e)) as [[val pac]|err]; [|done].
    destruct (write_rows feeder_line (S start) fls) as [rows' res] eqn:E.
    intros [= <- ->]. unfold column in *. csimpl. by rewrite (IH _ _ E).
Qed.

(** A feeder list that gets written holds, after the header, [cnt] rows
    whose feeder numbers are the first [cnt] positions of the pattern,
    each plus one, in some order: pairwise distinct and from 1 to 38. *)
Theorem feeder_list_written (fuel : nat) (parsed : namespace) (v : list bom_row)
    (w w' : world) (name : string) :
  requested (arg_feederlist parsed) = Some name →
  feeder_section fuel parsed v w = Some (w', Returned tt) →
  ∃ rows,
    files w' = files w
               ++ [(name, header ["Feeder"; "Description"; "Package"; "Count"] :: rows)]
    ∧ length rows = feeder_cnt (create_component_list v)
    ∧ column 0 rows
      ≡ₚ (λ s, Z.of_nat s + 1)%Z <$> take (feeder_cnt (create_component_list v)) l1_ptrn
    ∧ NoDup (column 0 rows)
    ∧ Forall (λ z, 1 ≤ z ≤ 38)%Z (column 0 rows).
Proof.
  intros Hreq. unfold feeder_section. rewrite Hreq.
  destruct (feeder_table_spec v) as (_ & -> & _ & Hslots & Hlen).
  set (cnt := feeder_cnt (create_component_list v)) in *.
  set (fl := zip_with mkFeeder _ _) in *.
  destruct (optimize_while entry_cmb fuel (sorted_by_fdr fl) cnt 0)
    as [[[fls' [[]|e]] n]|] eqn:Hrun; [|done..].
  destruct (write_rows feeder_line 0 fls') as [rows res] eqn:E.
  intros [= <- ->]. exists rows.
  pose proof (write_rows_feeder _ _ _ E) as H0.
  pose proof (write_rows_length _ _ _ _ E) as Hrows.
  apply optimize_while_Permutation in Hrun. simpl in Hrun.
  unfold sorted_by_fdr in Hrun. rewrite py_sorted_Permutation in Hrun.
  assert (column 0 rows ≡ₚ (λ s, Z.of_nat s + 1)%Z <$> take cnt l1_ptrn) as Hperm.
  { rewrite H0, <- Hrun, <- Hslots, <- list_fmap_compose. done. }
  split_and!.
  - done.
  - rewrite Hrows, <- (Permutation_length Hrun). done.
  - done.
  - rewrite Hperm. apply NoDup_fmap_2; [intros a b ?; lia|].
    eapply sublist_NoDup; [|apply sublist_take].
    rewrite l1_ptrn_Permutation. apply NoDup_seq.
  - rewrite Hperm. apply Forall_fmap. apply Forall_take.
    rewrite l1_ptrn_Permutation. apply Forall_seq. intros. simpl. lia.
Qed.

Lemma feeder_list_written_witness :
  let v := (read_lines four_types []).1 in
  requested (arg_feederlist sample_parsed) = Some "feeders.csv"
  ∧ ∃ w', feeder_section 2 sample_parsed v banner = Some (w', Returned tt)
    ∧ ∃ rows,
        files w' = files banner
                   ++ [("feeders.csv",
                        header ["Feeder"; "Description"; "Package"; "Count"] :: rows)]
        ∧ length rows = feeder_cnt (create_component_list v)
        ∧ column 0 rows
          ≡ₚ (λ s, Z.of_nat s + 1)%Z <$> take (feeder_cnt (create_component_list v)) l1_ptrn
        ∧ NoDup (column 0 rows)
        ∧ Forall (λ z, 1 ≤ z ≤ 38)%Z (column 0 rows).
Proof.
  intros v. split; [reflexivity|].
  assert (∃ w', feeder_section 2 sample_parsed v banner = Some (w', Returned tt))
    as [w' Hw'] by (eexists; by vm_compute).
  exists w'. split; [exact Hw'|].
  exact (feeder_list_written 2 sample_parsed v banner w' "feeders.csv" eq_refl Hw').
Defined.
